(** * document_indexer: segmentation, embedding back-fill and ranking

    A shallow embedding of [index_documents.py], [src/embedder.py] and
    [src/search.py], and the properties of the specification checked
    against it.

    Layout: the Python runtime the code relies on ([Py]), then one module
    per source file holding the translated functions, then the lemmas and
    theorems. *)

From Stdlib Require Import String Ascii.
From Stdlib Require Import List ZArith NArith Lia Bool.
From Stdlib Require Import Permutation Sorted.
From Stdlib Require Import Floats.SpecFloat.
Import ListNotations.
Local Open Scope Z_scope.
Set Warnings "-register-all".

(* ================================================================== *)
(** * Part I: definitions                                              *)
(* ================================================================== *)

(** ** The Python runtime: strings, slices, ranges *)
Module Py.

(** A [str] is a sequence of Unicode code points; [len] counts them. *)
Definition char := N.
Definition str := list char.

Definition of_string (s : String.string) : str :=
  map Ascii.N_of_ascii (String.list_ascii_of_string s).
Arguments of_string s%_string.

Definition len {A : Type} (s : list A) : Z := Z.of_nat (List.length s).

(** [str.isspace] for one code point.  [str.split()], [str.strip()] and
    the regular expression class [\s] (on [str] patterns) all use this
    same set. *)
Definition isspace (c : char) : bool :=
  (((9 <=? c) && (c <=? 13)) || ((28 <=? c) && (c <=? 32))
   || (c =? 133) || (c =? 160) || (c =? 5760)
   || ((8192 <=? c) && (c <=? 8202))
   || (c =? 8232) || (c =? 8233) || (c =? 8239) || (c =? 8287)
   || (c =? 12288))%N.

Definition space : char := 32%N.

Fixpoint lstrip (s : str) : str :=
  match s with
  | c :: s' => if isspace c then lstrip s' else s
  | [] => []
  end.

Definition rstrip (s : str) : str := rev (lstrip (rev s)).

(** [s.strip()] *)
Definition strip (s : str) : str := rstrip (lstrip s).

(** Truth value of a sequence: [if s:] holds when [s] is not empty. *)
Definition truthy {A : Type} (s : list A) : bool :=
  match s with [] => false | _ :: _ => true end.

(** The bound of a slice brought into [0 .. n]: a negative index counts
    from the end, and what still falls outside is clamped. *)
Definition clamp_index (n i : Z) : Z :=
  if i <? 0 then Z.max (i + n) 0 else Z.min i n.

(** [s[i:j]] *)
Definition slice {A : Type} (s : list A) (i j : Z) : list A :=
  let n := len s in
  let lo := clamp_index n i in
  let hi := clamp_index n j in
  firstn (Z.to_nat (hi - lo)) (skipn (Z.to_nat lo) s).

(** [range(0, stop, step)]: [None] stands for the [ValueError] a zero
    step raises. *)
Definition range0 (stop step : Z) : option (list Z) :=
  if step =? 0 then None
  else
    let count := if step <? 0 then (- stop - step - 1) / (- step)
                 else (stop + step - 1) / step in
    Some (map (fun k => Z.of_nat k * step) (seq 0 (Z.to_nat count))).

(** [s.split()]: the maximal runs of non-whitespace characters.
    [word] is the run being read, last character first. *)
Fixpoint split_from (s : str) (word : str) : list str :=
  match s with
  | [] => if truthy word then [rev word] else []
  | c :: s' =>
      if isspace c
      then (if truthy word then rev word :: split_from s' [] else split_from s' [])
      else split_from s' (c :: word)
  end.

Definition split (s : str) : list str := split_from s [].

(** [sep.join(parts)] *)
Fixpoint join (sep : str) (parts : list str) : str :=
  match parts with
  | [] => []
  | [p] => p
  | p :: ps => p ++ sep ++ join sep ps
  end.

Definition newline : char := 10%N.

(** The characters of [s] that are not whitespace, in order: what
    trimming, splitting and joining with whitespace leave untouched. *)
Definition nonspace (s : str) : str :=
  filter (fun c => negb (isspace c)) s.

End Py.

(** ** The Python runtime: floats and objects

    A Python [float] is an IEEE 754 binary64 number; the Standard
    Library's executable specification of it is used ([spec_float] with
    53 bits of precision and exponents up to 1024, rounding to nearest
    even), in which all NaNs are one value. *)
Module PyNum.

Definition float := spec_float.
Definition prec : Z := 53.
Definition emax : Z := 1024.

Definition fadd : float -> float -> float := SFadd prec emax.
Definition fmul : float -> float -> float := SFmul prec emax.
Definition fdiv : float -> float -> float := SFdiv prec emax.
Definition fsqrt : float -> float := SFsqrt prec emax.
(** [x == y], [x < y], [x <= y]: all false when a NaN is compared. *)
Definition feqb : float -> float -> bool := SFeqb.
Definition fltb : float -> float -> bool := SFltb.
Definition fleb : float -> float -> bool := SFleb.

Definition zero : float := S754_zero false.          (* 0.0 *)
Definition neg_inf : float := S754_infinity true.    (* float("-inf") *)

Definition is_nan (x : float) : bool :=
  match x with S754_nan => true | _ => false end.

(** [math.isfinite] *)
Definition is_finite (x : float) : bool :=
  match x with S754_nan | S754_infinity _ => false | _ => true end.

(** [float(n)] for an [int]: the nearest double, [None] for the
    [OverflowError] of an integer beyond the range of doubles. *)
Definition float_of_int (n : Z) : option float :=
  match binary_normalize prec emax n 0 false with
  | S754_infinity _ => None
  | x => Some x
  end.

(** [2.0 ** k], for writing down examples. *)
Definition pow2 (k : Z) : float := binary_normalize prec emax 1 k false.

(** [math.sqrt(x)]: [None] for the [ValueError] on a negative number. *)
Definition math_sqrt (x : float) : option float :=
  if fltb x zero then None else Some (fsqrt x).

(** Neither a negative number nor negative infinity (NaN and both zeros
    pass): what [math.sqrt] accepts. *)
Definition not_negative (x : float) : Prop :=
  match x with
  | S754_infinity true | S754_finite true _ _ => False
  | _ => True
  end.

(** [x / y] on floats: [None] for the [ZeroDivisionError]. *)
Definition truediv (x y : float) : option float :=
  if feqb y zero then None else Some (fdiv x y).

(** Python objects, as far as the code looks at them: what an embedding
    response or a decoded [jsonb] value can hold.  A [str] carries, next
    to its text, what [float()] makes of it ([None] when it raises
    [ValueError]); the grammar of float literals is not modelled. *)
Inductive pyval :=
| PyNone
| PyBool (b : bool)
| PyInt (n : Z)
| PyFloat (x : float)
| PyStr (s : Py.str) (as_float : option float)
| PyList (items : list pyval)
| PyDict (items : list (Py.str * pyval)).

(** [float(v)]: [None] when it raises ([TypeError], [ValueError] or
    [OverflowError]). *)
Definition float_of (v : pyval) : option float :=
  match v with
  | PyFloat x => Some x
  | PyInt n => float_of_int n
  | PyBool b => float_of_int (if b then 1 else 0)
  | PyStr _ parsed => parsed
  | PyNone | PyList _ | PyDict _ => None
  end.

(** [[float(x) for x in vec]]: [None] as soon as one conversion raises. *)
Fixpoint floats_of (vec : list pyval) : option (list float) :=
  match vec with
  | [] => Some []
  | v :: vec' =>
      match float_of v with
      | None => None
      | Some x =>
          match floats_of vec' with
          | None => None
          | Some xs => Some (x :: xs)
          end
      end
  end.

End PyNum.

(** ** index_documents.py *)
Module IndexDocuments.
Import Py.

(** [extract_text_from_pdf(path)], on what [PdfReader] gives: for each
    page, in order, the value of [page.extract_text()] ([None] when it
    returns [None]). *)
Definition extract_text_from_pdf (pages : list (option str)) : str :=
  let parts :=
    fold_left
      (fun parts page =>
         let text := match page with Some t => t | None => [] end in
         if truthy (strip text) then parts ++ [text] else parts)
      pages [] in
  strip (join [newline] parts).

(** [extract_text_from_docx(path)], on what [Document] gives: for each
    paragraph, in order, the value of [para.text]. *)
Definition extract_text_from_docx (paragraphs : list (option str)) : str :=
  let parts :=
    fold_left
      (fun parts para =>
         let t := strip (match para with Some t => t | None => [] end) in
         if truthy t then parts ++ [t] else parts)
      paragraphs [] in
  strip (join [newline] parts).

(** The body of the [while] loop of [chunk_fixed_size], run at most
    [fuel] times: [None] when the loop has not left after [fuel] rounds. *)
Fixpoint chunk_fixed_size_loop (fuel : nat) (text : str)
  (chunk_size overlap : Z) (start : Z) (chunks : list str)
  : option (list str) :=
  match fuel with
  | O => None
  | S fuel' =>
      if start <? len text then
        let end_ := start + chunk_size in
        let chunk := strip (slice text start end_) in
        let chunks := if truthy chunk then chunks ++ [chunk] else chunks in
        let start := end_ - overlap in
        let start := if start <? 0 then 0 else start in
        chunk_fixed_size_loop fuel' text chunk_size overlap start chunks
      else Some chunks
  end.

Definition chunk_fixed_size (fuel : nat) (text : str)
  (chunk_size overlap : Z) : option (list str) :=
  chunk_fixed_size_loop fuel text chunk_size overlap 0 [].

(** The class [[.!?]] of the sentence pattern. *)
Definition sentence_end (c : char) : bool :=
  ((c =? 46) || (c =? 33) || (c =? 63))%N.

(** [re.split(r'(?<=[.!?])\s+', s)], read left to right.  A match starts
    at a whitespace character that directly follows one of [.!?] and
    takes the whole whitespace run; the pieces between the matches are
    returned, the last one also when it is empty.
    [after_end]: the previous character is one of [.!?];
    [in_gap]: a match is being read; [piece]: the piece being read, last
    character first. *)
Fixpoint re_split_from (s : str) (after_end in_gap : bool) (piece : str)
  : list str :=
  match s with
  | [] => [rev piece]
  | c :: s' =>
      if in_gap then
        if isspace c then re_split_from s' false true piece
        else re_split_from s' (sentence_end c) false (c :: piece)
      else if after_end && isspace c
      then rev piece :: re_split_from s' false true []
      else re_split_from s' (sentence_end c) false (c :: piece)
  end.

Definition re_split_sentences (s : str) : list str :=
  re_split_from s false false [].

(** The inner loop of [chunk_by_sentences]:
    [for i in range(0, len(s), max_chars)], appending the trimmed,
    non-empty slices to [chunks]. *)
Definition force_split (s : str) (max_chars : Z) (chunks : list str)
  : option (list str) :=
  match range0 (len s) max_chars with
  | None => None
  | Some indices =>
      Some (fold_left
              (fun chunks i =>
                 let part := strip (slice s i (i + max_chars)) in
                 if truthy part then chunks ++ [part] else chunks)
              indices chunks)
  end.

(** One round of [for s in sentences], on the pair [(chunks, current)]. *)
Definition sentence_step (max_chars : Z) (st : list str * str) (s : str)
  : option (list str * str) :=
  let '(chunks, current) := st in
  let s := strip s in
  if negb (truthy s) then Some (chunks, current)
  else if max_chars <? len s then
    let '(chunks, current) :=
      if truthy current then (chunks ++ [strip current], [])
      else (chunks, current) in
    match force_split s max_chars chunks with
    | None => None
    | Some chunks => Some (chunks, current)
    end
  else if truthy current && (max_chars <? len current + 1 + len s) then
    Some (chunks ++ [strip current], s)
  else
    Some (chunks,
          if truthy current then strip (current ++ [space] ++ s) else s).

Fixpoint sentence_loop (max_chars : Z) (st : list str * str)
  (sentences : list str) : option (list str * str) :=
  match sentences with
  | [] => Some st
  | s :: rest =>
      match sentence_step max_chars st s with
      | None => None
      | Some st' => sentence_loop max_chars st' rest
      end
  end.

(** [cleaned = " ".join(text.split())] *)
Definition clean (text : str) : str := join [space] (split text).

(** [chunk_by_sentences(text, max_chars)]; [None] stands for the
    [ValueError] of [range] with a zero step. *)
Definition chunk_by_sentences (text : str) (max_chars : Z)
  : option (list str) :=
  let cleaned := clean text in
  if negb (truthy cleaned) then Some []
  else
    let sentences := re_split_sentences cleaned in
    match sentence_loop max_chars ([], []) sentences with
    | None => None
    | Some (chunks, current) =>
        Some (if truthy current then chunks ++ [strip current] else chunks)
    end.

(** What the specification asks of an emitted chunk: trimmed, not empty
    and at most [max_chars] characters long. *)
Definition chunk_ok (max_chars : Z) (c : str) : Prop :=
  strip c = c /\ c <> [] /\ len c <= max_chars.

(** The invariant of the loop over the sentences: the chunks emitted so
    far are good, and the accumulator is empty or would itself be a good
    chunk. *)
Definition loop_invariant (max_chars : Z) (st : list str * str) : Prop :=
  Forall (chunk_ok max_chars) (fst st)
  /\ (snd st = [] \/ chunk_ok max_chars (snd st)).

End IndexDocuments.

(** ** The collaborators: errors, the embedding client, the chunk table *)
Module Env.
Import Py PyNum.

(** The [RuntimeError]s the code raises, one constructor per message;
    [e] is the text of the exception underneath, where the message
    quotes it.  [Uncaught] is any other exception reaching [main]. *)
Inductive error :=
| EmbedContentFailed (e : str)
    (* "Gemini embed_content failed: {e}" *)
| UnexpectedResponse (e : str)
    (* "Gemini returned unexpected embedding response: {e}" *)
| EmptyOrInvalidVector
    (* "Gemini returned empty/invalid embedding vector" *)
| NonNumericValues
    (* "Gemini embedding vector contains non-numeric values: {e}" *)
| DbQueryFailed (e : str)
    (* "Database query failed while fetching chunks: {e}" *)
| DbUpdateFailed (chunk_id : Z) (e : str)
    (* "DB update failed for chunk_id={chunk_id}: {e}" *)
| Uncaught.

Inductive result (A : Type) :=
| Ok (a : A)
| Raise (e : error).
Arguments Ok {A} a.
Arguments Raise {A} e.

(** What one call of [client.models.embed_content] leads to: it raises,
    or [resp.embeddings[0].values] raises, or that expression has a
    value. *)
Inductive api_reply :=
| ApiRaises (e : str)
| ApiNoValues (e : str)
| ApiValues (vec : pyval).

Definition client := str -> api_reply.

(** A row of [document_chunks].  [embedding] is the [jsonb] column:
    [None] for SQL [NULL], otherwise the value as [psycopg2] decodes it. *)
Record row := {
  id : Z;
  chunk_text : option str;
  embedding : option pyval;
  filename : str;
  split_strategy : str
}.

(** The table, its rows listed by ascending [id], the order both
    queries ask for ([ORDER BY id]). *)
Definition table := list row.

(** [embedding = '{}'::jsonb OR embedding = '[]'::jsonb] *)
Definition empty_json (v : pyval) : bool :=
  match v with
  | PyDict [] | PyList [] => true
  | _ => false
  end.

(** The [WHERE] clause of [fetch_chunks_without_embedding]; the one of
    [fetch_chunks_with_embeddings] is its negation. *)
Definition lacks_embedding (r : row) : bool :=
  match embedding r with
  | None => true
  | Some v => empty_json v
  end.

(** The rows after [UPDATE document_chunks SET embedding = %s WHERE id = %s]
    with [Json(embedding)], when the statement succeeds: the rows with
    that id hold the list, the others are as they were.  The list is
    kept here as it was handed over; the form in which the column keeps
    a number (a zero without its sign, say) is not modelled, and a
    statement the database refuses, such as one with a NaN or an
    infinity, is a failing write of [Embedder.update_error_at]. *)
Definition set_embedding (chunk_id : Z) (vec : list float) (t : table)
  : table :=
  map (fun r =>
         if id r =? chunk_id
         then {| id := id r; chunk_text := chunk_text r;
                 embedding := Some (PyList (map PyFloat vec));
                 filename := filename r;
                 split_strategy := split_strategy r |}
         else r)
      t.

End Env.

(** ** src/embedder.py *)
Module Embedder.
Import Py PyNum Env.

(** [embed_text(client, text)] *)
Definition embed_text (c : client) (text : str) : result (list float) :=
  match c text with
  | ApiRaises e => Raise (EmbedContentFailed e)
  | ApiNoValues e => Raise (UnexpectedResponse e)
  | ApiValues vec =>
      match vec with
      | PyList items =>
          if len items =? 0 then Raise EmptyOrInvalidVector
          else
            match floats_of items with
            | Some xs => Ok xs
            | None => Raise NonNumericValues
            end
      | _ => Raise EmptyOrInvalidVector
      end
  end.

(** What surrounds one run of [main]: the environment variable, the
    embedding service and the failures of the database.  The service
    and the database may answer differently from one call to the next:
    [client_at n] answers the call made after [n] earlier ones, and
    [update_error_at n] tells whether the write made after [n] earlier
    ones fails, and with which message. *)
Record world := {
  api_key : option str;
  client_at : nat -> client;
  fetch_error : option str;
  update_error_at : nat -> Z -> list float -> option str
}.

(** [fetch_chunks_without_embedding(limit)] *)
Definition fetch_chunks_without_embedding (w : world) (t : table)
  (limit : Z) : result (list (Z * option str)) :=
  match fetch_error w with
  | Some e => Raise (DbQueryFailed e)
  | None =>
      if limit <? 0 then Raise (DbQueryFailed [])
      else Ok (map (fun r => (id r, chunk_text r))
                   (firstn (Z.to_nat limit) (filter lacks_embedding t)))
  end.

(** The lines [main] prints. *)
Inductive line :=
| KeyLoaded (yes : bool)        (* "GEMINI_API_KEY loaded: YES/NO" *)
| MissingKey                    (* "ERROR: Missing GEMINI_API_KEY in .env" *)
| Found (n : Z)                 (* "Found {n} chunks without embedding" *)
| SkippedChunk (chunk_id : Z)   (* "Skipped chunk_id={id} (empty chunk_text)" *)
| UpdatedChunk (chunk_id : Z) (dim : Z)  (* "Updated chunk_id={id} dim={dim}" *)
| Done (updated skipped : Z)    (* "Done. Updated={u} Skipped={s}" *)
| Error (e : error).            (* "ERROR: {e}" *)

(** The state of a run: the two counters of the loop, and what has been
    printed, asked of the embedding service and written so far. *)
Record state := {
  updated : Z;
  skipped : Z;
  printed : list line;
  rows : table;
  embed_calls : list str;
  db_writes : list (Z * list float)
}.

(** [not chunk_text or not str(chunk_text).strip()] *)
Definition blank (chunk_text : option str) : bool :=
  match chunk_text with
  | None => true
  | Some text => negb (truthy text) || negb (truthy (strip text))
  end.

(** One round of [for chunk_id, chunk_text in rows]: the state reached,
    and the exception when the round raises. *)
Definition chunk_step (w : world) (st : state) (r : Z * option str)
  : state * option error :=
  let '(chunk_id, chunk_text) := r in
  match chunk_text with
  | Some text =>
      if blank chunk_text then
        ({| updated := updated st; skipped := skipped st + 1;
            printed := printed st ++ [SkippedChunk chunk_id];
            rows := rows st; embed_calls := embed_calls st;
            db_writes := db_writes st |}, None)
      else
        let asked :=
          {| updated := updated st; skipped := skipped st;
             printed := printed st; rows := rows st;
             embed_calls := embed_calls st ++ [text];
             db_writes := db_writes st |} in
        match embed_text (client_at w (length (embed_calls st))) text with
        | Raise e => (asked, Some e)
        | Ok vec =>
            match update_error_at w (length (db_writes st)) chunk_id vec with
            | Some e => (asked, Some (DbUpdateFailed chunk_id e))
            | None =>
                ({| updated := updated st + 1; skipped := skipped st;
                    printed := printed st ++ [UpdatedChunk chunk_id (len vec)];
                    rows := set_embedding chunk_id vec (rows st);
                    embed_calls := embed_calls st ++ [text];
                    db_writes := db_writes st ++ [(chunk_id, vec)] |}, None)
            end
        end
  | None =>
      ({| updated := updated st; skipped := skipped st + 1;
          printed := printed st ++ [SkippedChunk chunk_id];
          rows := rows st; embed_calls := embed_calls st;
          db_writes := db_writes st |}, None)
  end.

(** The [for] loop: it stops at the first round that raises. *)
Fixpoint chunk_loop (w : world) (st : state) (rs : list (Z * option str))
  : state * option error :=
  match rs with
  | [] => (st, None)
  | r :: rs' =>
      match chunk_step w st r with
      | (st', None) => chunk_loop w st' rs'
      | failed => failed
      end
  end.

(** What a run leaves behind: the exit status [main] returns, the lines
    printed, the table, and the calls and writes made.  The two
    counters are local to [main]: they leave it only through the
    "Done." line. *)
Record run := {
  exit_code : Z;
  output : list line;
  table_after : table;
  calls : list str;
  writes : list (Z * list float)
}.

(** Leaving [main] with status [code] after printing [l]. *)
Definition leave (code : Z) (st : state) (l : list line) : run :=
  {| exit_code := code; output := printed st ++ l;
     table_after := rows st; calls := embed_calls st;
     writes := db_writes st |}.

Definition key_set (w : world) : bool :=
  match api_key w with Some k => truthy k | None => false end.

(** The state in which the loop starts, [n] rows having been fetched. *)
Definition start (t : table) (n : Z) : state :=
  {| updated := 0; skipped := 0; printed := [KeyLoaded true; Found n];
     rows := t; embed_calls := []; db_writes := [] |}.

(** [main()] *)
Definition main (w : world) (t : table) : run :=
  let st := {| updated := 0; skipped := 0;
               printed := [KeyLoaded (key_set w)];
               rows := t; embed_calls := []; db_writes := [] |} in
  if negb (key_set w) then leave 1 st [MissingKey]
  else
    match fetch_chunks_without_embedding w t 50 with
    | Raise e => leave 1 st [Error e]
    | Ok rs =>
        if negb (truthy rs) then leave 0 st [Found (len rs)]
        else
          match chunk_loop w (start t (len rs)) rs with
          | (st, None) => leave 0 st [Done (updated st) (skipped st)]
          | (st, Some e) => leave 1 st [Error e]
          end
    end.

(** The totals a run reports: those of its "Done." line, if it prints
    one. *)
Definition reported_totals (r : run) : option (Z * Z) :=
  match
    flat_map (fun l => match l with Done u s => [(u, s)] | _ => [] end)
             (output r)
  with
  | [] => None
  | t :: _ => Some t
  end.

(** The kinds of lines. *)
Definition is_done (l : line) : bool :=
  match l with Done _ _ => true | _ => false end.

Definition is_update (l : line) : bool :=
  match l with UpdatedChunk _ _ => true | _ => false end.

Definition is_skip (l : line) : bool :=
  match l with SkippedChunk _ => true | _ => false end.

Definition skips (out : list line) : Z := len (filter is_skip out).

(** The number of chunks a run tells it updated, and skipped: its
    "Updated chunk_id=" and "Skipped chunk_id=" lines. *)
Definition updated_lines (r : run) : Z := len (filter is_update (output r)).

Definition skipped_lines (r : run) : Z := skips (output r).

(** The counters agree with the lines printed and with the calls and
    writes made, as long as no round has raised. *)
Definition counted (pre : list (Z * option str)) (st : state)
  (res : option error) : Prop :=
  res = None ->
  updated st + skipped st = len pre
  /\ updated st = len (filter is_update (printed st))
  /\ skipped st = skips (printed st)
  /\ len (db_writes st) = updated st
  /\ len (embed_calls st) = updated st
  /\ forallb (fun x => negb (is_done x)) (printed st) = true.

(** What the loop asks and writes. *)
Definition careful (pre : list (Z * option str)) (st : state)
  (res : option error) : Prop :=
  Forall (fun text => blank (Some text) = false) (embed_calls st)
  /\ Forall (fun wr => snd wr <> [] /\ In (fst wr) (map fst pre))
       (db_writes st)
  /\ len (embed_calls st) <= len pre
  /\ len (db_writes st) <= len (embed_calls st).

(** How a row of the table stands to the row it was before the run. *)
Definition kept (t0 : table) (ids : list Z) (r0 r1 : row) : Prop :=
  In r0 t0
  /\ id r1 = id r0 /\ chunk_text r1 = chunk_text r0
  /\ filename r1 = filename r0 /\ split_strategy r1 = split_strategy r0
  /\ (r1 = r0 \/ (In (id r0) ids /\ lacks_embedding r1 = false)).

End Embedder.

(** ** src/search.py *)
Module Search.
Import Py PyNum Env.

(** [cosine_similarity(a, b)]; [None] when an exception is raised. *)
Definition cosine_similarity (a b : list float) : option float :=
  if negb (truthy a) || negb (truthy b) || negb (len a =? len b)
  then Some neg_inf
  else
    let '(dot, na, nb) :=
      fold_left
        (fun '(dot, na, nb) '(x, y) =>
           (fadd dot (fmul x y), fadd na (fmul x x), fadd nb (fmul y y)))
        (combine a b) (zero, zero, zero) in
    match math_sqrt na with
    | None => None
    | Some sa =>
        match math_sqrt nb with
        | None => None
        | Some sb =>
            let denom := fmul sa sb in
            if negb (feqb denom zero) then truediv dot denom
            else Some neg_inf
        end
    end.

(** The formula of the specification, computed in floating point:
    [dot(a,b) / (||a|| * ||b||)], and negative infinity when a vector is
    empty, the dimensions differ or the denominator is zero. *)
Definition dot (a b : list float) : float :=
  fold_left (fun acc '(x, y) => fadd acc (fmul x y)) (combine a b) zero.

Definition norm (a : list float) : float :=
  fsqrt (fold_left (fun acc x => fadd acc (fmul x x)) a zero).

Definition cosine_spec (a b : list float) : float :=
  match a, b with
  | [], _ | _, [] => neg_inf
  | _, _ =>
      if negb (length a =? length b)%nat then neg_inf
      else
        let denom := fmul (norm a) (norm b) in
        if feqb denom zero then neg_inf else fdiv (dot a b) denom
  end.

(** [embed_text(client, text)], the same code as in [embedder.py]. *)
Definition embed_text (c : client) (text : str) : result (list float) :=
  match c text with
  | ApiRaises e => Raise (EmbedContentFailed e)
  | ApiNoValues e => Raise (UnexpectedResponse e)
  | ApiValues vec =>
      match vec with
      | PyList items =>
          if len items =? 0 then Raise EmptyOrInvalidVector
          else
            match floats_of items with
            | Some xs => Ok xs
            | None => Raise NonNumericValues
            end
      | _ => Raise EmptyOrInvalidVector
      end
  end.

(** One of the dictionaries [fetch_chunks_with_embeddings] returns. *)
Record chunk := {
  c_id : Z;
  c_filename : str;
  c_split_strategy : str;
  c_chunk_text : option str;
  c_embedding : pyval
}.

Definition chunk_of_row (r : row) : chunk :=
  {| c_id := id r; c_filename := filename r;
     c_split_strategy := split_strategy r;
     c_chunk_text := chunk_text r;
     c_embedding := match embedding r with Some v => v | None => PyNone end |}.

(** [fetch_chunks_with_embeddings()]; [fetch_error] is the message of a
    failing connection or query. *)
Definition fetch_chunks_with_embeddings (fetch_error : option str)
  (t : table) : result (list chunk) :=
  match fetch_error with
  | Some e => Raise (DbQueryFailed e)
  | None =>
      Ok (map chunk_of_row (filter (fun r => negb (lacks_embedding r)) t))
  end.

(** One round of [for c in chunks], on the pair [(scored, skipped)];
    [None] when [cosine_similarity] raises. *)
Definition score_step (query_emb : list float)
  (st : list (float * chunk) * Z) (c : chunk)
  : option (list (float * chunk) * Z) :=
  let '(scored, skipped) := st in
  match c_embedding c with
  | PyList emb =>
      if len emb =? 0 then Some (scored, skipped + 1)
      else
        match floats_of emb with
        | None => Some (scored, skipped + 1)
        | Some emb_vec =>
            match cosine_similarity query_emb emb_vec with
            | None => None
            | Some score => Some (scored ++ [(score, c)], skipped)
            end
        end
  | _ => Some (scored, skipped + 1)
  end.

Fixpoint score_loop (query_emb : list float)
  (st : list (float * chunk) * Z) (chunks : list chunk)
  : option (list (float * chunk) * Z) :=
  match chunks with
  | [] => Some st
  | c :: chunks' =>
      match score_step query_emb st c with
      | None => None
      | Some st' => score_loop query_emb st' chunks'
      end
  end.

(** [scored.sort(key=lambda x: x[0], reverse=True)].  [list.sort] is
    stable and compares keys with [<] only; with [reverse=True] the
    greater keys come first and equal keys keep their original order.
    Modelled by insertion: each entry, from the last to the first, goes
    in front of the sorted rest, behind the entries whose key is
    greater.  On keys that [<] orders consistently (no NaN) there is only
    one stable descending arrangement, so every stable sort returns it. *)
Fixpoint insert_by_score (x : float * chunk) (l : list (float * chunk))
  : list (float * chunk) :=
  match l with
  | [] => [x]
  | y :: l' =>
      if fltb (fst x) (fst y) then y :: insert_by_score x l'
      else x :: y :: l'
  end.

Definition sort_by_score_reverse (l : list (float * chunk))
  : list (float * chunk) :=
  fold_right insert_by_score [] l.

(** The part of [main] that ranks: the scoring loop, the sort, and the
    slice [scored[:top_k]] the printing loop runs over; with it, the
    number of rows skipped. *)
Definition ranking (query_emb : list float) (chunks : list chunk)
  (top_k : Z) : option (list (float * chunk) * Z) :=
  match score_loop query_emb ([], 0) chunks with
  | None => None
  | Some (scored, skipped) =>
      Some (slice (sort_by_score_reverse scored) 0 top_k, skipped)
  end.

(** The lines [main] prints. *)
Inductive line :=
| KeyLoaded (yes : bool)       (* "GEMINI_API_KEY loaded: YES/NO" *)
| MissingKey                   (* "ERROR: Missing GEMINI_API_KEY in .env" *)
| QueryDim (n : Z)             (* "query dim = {n}" *)
| NoChunks                     (* "No chunks with embeddings found in database." *)
| TopHeader (top_k : Z)        (* "Top {top_k} results:" *)
| Hit (chunk_id : Z) (score : float) (file strategy preview : str)
| SkippedRows (n : Z)          (* "(Skipped {n} rows with invalid embeddings)" *)
| Error (e : error).           (* "ERROR: {e}" *)

(** The preview of a hit: the chunk text (empty when absent) with every
    newline replaced by a space, cut to 220 characters and three dots
    when longer. *)
Definition preview (c : chunk) : str :=
  let text := match c_chunk_text c with Some t => t | None => [] end in
  let flat := map (fun ch => if (ch =? 10)%N then space else ch) text in
  if 220 <? len flat then slice flat 0 220 ++ of_string "..." else flat.

Definition hit_line (e : float * chunk) : line :=
  let '(score, c) := e in
  Hit (c_id c) score (c_filename c) (c_split_strategy c) (preview c).

(** [main()], from the point where [sys.argv] has given a non-empty
    [query] and a [top_k] (5, or a positive integer read from the
    command line): the exit status and the lines printed. *)
Definition main (api_key : option str) (c : client)
  (fetch_error : option str) (t : table) (query : str) (top_k : Z)
  : Z * list line :=
  let key_set := match api_key with Some k => truthy k | None => false end in
  let out := [KeyLoaded key_set] in
  if negb key_set then (1, out ++ [MissingKey])
  else
    match embed_text c query with
    | Raise e => (1, out ++ [Error e])
    | Ok query_emb =>
        let out := out ++ [QueryDim (len query_emb)] in
        match fetch_chunks_with_embeddings fetch_error t with
        | Raise e => (1, out ++ [Error e])
        | Ok chunks =>
            if negb (truthy chunks) then (0, out ++ [NoChunks])
            else
              match ranking query_emb chunks top_k with
              | None => (1, out ++ [Error Uncaught])
              | Some (top, skipped) =>
                  (0, out ++ [TopHeader top_k] ++ map hit_line top
                      ++ (if skipped =? 0 then [] else [SkippedRows skipped]))
              end
        end
    end.

Definition is_hit (l : line) : bool :=
  match l with Hit _ _ _ _ _ => true | _ => false end.

(** A candidate the scoring loop keeps: its embedding is a non-empty
    list every element of which [float()] converts. *)
Definition valid_embedding (c : chunk) : bool :=
  match c_embedding c with
  | PyList emb =>
      negb (len emb =? 0)
      && match floats_of emb with Some _ => true | None => false end
  | _ => false
  end.

(** The vector [emb_vec] the loop computes for a candidate, and the list
    [scored] it builds: the kept candidates in input order, each with
    its similarity to the query. *)
Definition emb_vec (c : chunk) : list float :=
  match c_embedding c with
  | PyList emb => match floats_of emb with Some v => v | None => [] end
  | _ => []
  end.

Definition score_of (query_emb : list float) (c : chunk) : float :=
  cosine_spec query_emb (emb_vec c).

Definition scored_of (query_emb : list float) (chunks : list chunk)
  : list (float * chunk) :=
  map (fun c => (score_of query_emb c, c)) (filter valid_embedding chunks).

(** Scores in descending order: every score is [>=] all later ones. *)
Definition descending (l : list (float * chunk)) : Prop :=
  StronglySorted (fun e1 e2 => fleb (fst e2) (fst e1) = true) l.

(** The entries of [l] whose score compares equal to [s]. *)
Definition tied (s : float) (l : list (float * chunk))
  : list (float * chunk) :=
  filter (fun e => feqb (fst e) s) l.

End Search.

(** ** Concrete inputs used below *)
Module Examples.
Import Py PyNum Env.

Definition one : float := pow2 0.                 (* 1.0 *)
Definition minus_one : float := SFopp one.        (* -1.0 *)

Definition candidate (i : Z) (emb : list float) : Search.chunk :=
  {| Search.c_id := i; Search.c_filename := of_string "doc.pdf";
     Search.c_split_strategy := of_string "fixed_size";
     Search.c_chunk_text := Some (of_string "text");
     Search.c_embedding := PyList (map PyFloat emb) |}.

(** The ranking example of the specification: scores 1.0, 0.0, -1.0. *)
Definition unit_query : list float := [one; zero].
Definition unit_candidates : list Search.chunk :=
  [candidate 1 [one; zero]; candidate 2 [zero; one];
   candidate 3 [minus_one; zero]].

(** Finite embeddings whose dot product overflows: query [2^40, 0],
    candidates [0, 1], [2^1000, 0] and [1, 0]. *)
Definition large_query : list float := [pow2 40; zero].
Definition large_candidates : list Search.chunk :=
  [candidate 1 [zero; one]; candidate 2 [pow2 1000; zero];
   candidate 3 [one; zero]].

(** What the ranking returns for them: the input order, with scores
    0.0, NaN and 1.0. *)
Definition large_ranked : list (float * Search.chunk) :=
  [(zero, candidate 1 [zero; one]);
   (S754_nan, candidate 2 [pow2 1000; zero]);
   (one, candidate 3 [one; zero])].

(** A row as [insert_chunk] stores it: the embedding is the empty
    object. *)
Definition pending (i : Z) (text : str) : row :=
  {| id := i; chunk_text := Some text; embedding := Some (PyDict []);
     filename := of_string "doc.pdf";
     split_strategy := of_string "fixed_size" |}.

Definition embedded (i : Z) (text : str) (emb : list float) : row :=
  {| id := i; chunk_text := Some text;
     embedding := Some (PyList (map PyFloat emb));
     filename := of_string "doc.pdf";
     split_strategy := of_string "fixed_size" |}.

Definition two_pending : table :=
  [pending 1 (of_string "alpha"); pending 2 (of_string "beta")].

Definition all_embedded : table :=
  [embedded 1 (of_string "alpha") [one; zero];
   embedded 2 (of_string "beta") [zero; one]].

(** A service that answers the first call and refuses the second. *)
Definition second_call_fails : Embedder.world :=
  {| Embedder.api_key := Some (of_string "key");
     Embedder.client_at := fun n _ =>
       match n with
       | O => ApiValues (PyList [PyFloat one; PyFloat zero])
       | _ => ApiRaises (of_string "quota exceeded")
       end;
     Embedder.fetch_error := None;
     Embedder.update_error_at := fun _ _ _ => None |}.

(** The run of [main] on [two_pending] with that service: the state
    after the first chunk, and after the call for the second. *)
Definition first_done : Embedder.state :=
  {| Embedder.updated := 1; Embedder.skipped := 0;
     Embedder.printed :=
       [Embedder.KeyLoaded true; Embedder.Found 2;
        Embedder.UpdatedChunk 1 2];
     Embedder.rows :=
       [embedded 1 (of_string "alpha") [one; zero];
        pending 2 (of_string "beta")];
     Embedder.embed_calls := [of_string "alpha"];
     Embedder.db_writes := [(1, [one; zero])] |}.

Definition second_asked : Embedder.state :=
  {| Embedder.updated := 1; Embedder.skipped := 0;
     Embedder.printed := Embedder.printed first_done;
     Embedder.rows := Embedder.rows first_done;
     Embedder.embed_calls := [of_string "alpha"; of_string "beta"];
     Embedder.db_writes := Embedder.db_writes first_done |}.

(** A service that answers with NaN and infinity. *)
Definition non_finite_client : client :=
  fun _ => ApiValues (PyList [PyFloat S754_nan; PyFloat (S754_infinity false)]).

End Examples.

(* ================================================================== *)
(** * Part II: lemmas and theorems                                     *)
(* ================================================================== *)

Import Py.

(** ** Fixed-size chunking *)
Module FixedSizeFacts.
Import IndexDocuments.

(** More fuel never changes a result already reached. *)
Lemma chunk_fixed_size_loop_fuel_mono :
  forall fuel text chunk_size overlap start chunks r,
    chunk_fixed_size_loop fuel text chunk_size overlap start chunks = Some r ->
    forall fuel', (fuel <= fuel')%nat ->
    chunk_fixed_size_loop fuel' text chunk_size overlap start chunks = Some r.
Proof.
  induction fuel as [|fuel IH]; intros text cs ov start chunks r H fuel' Hle.
  - discriminate.
  - destruct fuel' as [|fuel']; [lia|].
    simpl in *. destruct (start <? len text); [|exact H].
    eapply IH; [exact H | lia].
Qed.

(** When the window advances ([overlap < chunk_size]) the loop leaves:
    the distance from [start] to the end of the text bounds the rounds. *)
Lemma chunk_fixed_size_loop_terminates :
  forall text chunk_size overlap, overlap < chunk_size ->
  forall n start chunks,
    0 <= start -> len text - start <= Z.of_nat n ->
    exists r,
      chunk_fixed_size_loop (S n) text chunk_size overlap start chunks = Some r.
Proof.
  intros text cs ov Hov.
  induction n as [|n IH]; intros start chunks Hs Hn.
  - simpl. destruct (start <? len text) eqn:E; [apply Z.ltb_lt in E; lia|].
    eexists; reflexivity.
  - cbn [chunk_fixed_size_loop].
    destruct (start <? len text) eqn:E; [|eexists; reflexivity].
    destruct (start + cs - ov <? 0) eqn:E2; [apply Z.ltb_lt in E2; lia|].
    apply IH; lia.
Qed.

Lemma chunk_fixed_size_terminates :
  forall text chunk_size overlap, overlap < chunk_size ->
    exists fuel r, chunk_fixed_size fuel text chunk_size overlap = Some r.
Proof.
  intros text cs ov Hov.
  destruct (chunk_fixed_size_loop_terminates text cs ov Hov
              (Z.to_nat (len text)) 0 []) as [r Hr]; [lia | unfold len; lia |].
  exists (S (Z.to_nat (len text))), r. exact Hr.
Qed.

(** When the window does not advance ([chunk_size <= overlap]) on a
    non-empty text, [start] is 0 again after every round, whether through
    the clamp or not: no amount of fuel is enough. *)
Lemma chunk_fixed_size_loop_stuck :
  forall text chunk_size overlap,
    0 < len text -> chunk_size <= overlap ->
    forall fuel chunks,
      chunk_fixed_size_loop fuel text chunk_size overlap 0 chunks = None.
Proof.
  intros text cs ov Hlen Hov.
  induction fuel as [|fuel IH]; intros chunks; [reflexivity|].
  cbn [chunk_fixed_size_loop].
  destruct (0 <? len text) eqn:E; [|apply Z.ltb_ge in E; lia].
  destruct (0 + cs - ov <? 0) eqn:E2.
  - apply IH.
  - apply Z.ltb_ge in E2. replace (0 + cs - ov) with 0 by lia. apply IH.
Qed.

End FixedSizeFacts.

(** C8: [chunk_fixed_size("abcdefghij", 4, 1)] is
    [["abcd", "defg", "ghij", "j"]]: the loop leaves after the windows at
    offsets 0, 3, 6 and 9 (five evaluations of its condition), and any
    larger number of rounds allowed gives the same list. *)
Theorem chunk_fixed_size_example :
  forall fuel, (5 <= fuel)%nat ->
    IndexDocuments.chunk_fixed_size fuel (of_string "abcdefghij") 4 1
    = Some [of_string "abcd"; of_string "defg"; of_string "ghij";
            of_string "j"].
Proof.
  intros fuel Hfuel. unfold IndexDocuments.chunk_fixed_size.
  apply FixedSizeFacts.chunk_fixed_size_loop_fuel_mono with (fuel := 5%nat);
    [vm_compute; reflexivity | exact Hfuel].
Qed.

(** C8 at the least number of rounds. *)
Lemma chunk_fixed_size_example_witness :
  IndexDocuments.chunk_fixed_size 5 (of_string "abcdefghij") 4 1
  = Some [of_string "abcd"; of_string "defg"; of_string "ghij";
          of_string "j"].
Proof. apply (chunk_fixed_size_example 5). lia. Defined.

(** C1 (failing input): on [chunk_fixed_size("a", 1, 1)] the loop never
    leaves: whatever number of rounds is allowed, no result is reached. *)
Theorem chunk_fixed_size_overlap_eq_size_diverges :
  forall fuel,
    IndexDocuments.chunk_fixed_size fuel (of_string "a") 1 1 = None.
Proof.
  intros fuel. unfold IndexDocuments.chunk_fixed_size.
  apply FixedSizeFacts.chunk_fixed_size_loop_stuck; [reflexivity | lia].
Qed.



(** ** Trimming *)
Module StripFacts.

Lemma lstrip_length : forall s, (length (lstrip s) <= length s)%nat.
Proof.
  induction s as [|c s IH]; simpl; [lia|].
  destruct (isspace c); simpl; lia.
Qed.

Lemma strip_length : forall s, (length (strip s) <= length s)%nat.
Proof.
  intros s. unfold strip, rstrip. rewrite length_rev.
  etransitivity; [apply lstrip_length|]. rewrite length_rev.
  apply lstrip_length.
Qed.

Lemma strip_len : forall s, len (strip s) <= len s.
Proof. intros s. unfold len. pose proof (strip_length s). lia. Qed.

Lemma lstrip_nil_iff : forall s, lstrip s = [] <-> forallb isspace s = true.
Proof.
  induction s as [|c s IH]; simpl; [tauto|].
  destruct (isspace c); simpl; [exact IH|].
  split; discriminate.
Qed.

(** What [lstrip] returns has nothing left to strip on the left. *)
Lemma lstrip_idem : forall s, lstrip (lstrip s) = lstrip s.
Proof.
  induction s as [|c s IH]; simpl; [reflexivity|].
  destruct (isspace c) eqn:E; [exact IH|]. simpl. now rewrite E.
Qed.

Lemma lstrip_app_nonspace :
  forall s c, isspace c = false -> lstrip (s ++ [c]) = lstrip s ++ [c].
Proof.
  induction s as [|d s IH]; intros c Hc; simpl.
  - now rewrite Hc.
  - destruct (isspace d); [now apply IH | reflexivity].
Qed.

(** Stripping on the right leaves a stripped left end alone. *)
Lemma lstrip_rstrip_fixed :
  forall s, lstrip s = s -> lstrip (rstrip s) = rstrip s.
Proof.
  intros [|c s] H; [reflexivity|].
  simpl in H. destruct (isspace c) eqn:E.
  - pose proof (lstrip_length s) as L. rewrite H in L. simpl in L. lia.
  - unfold rstrip. simpl rev. rewrite lstrip_app_nonspace by exact E.
    rewrite rev_app_distr. simpl. now rewrite E.
Qed.

Lemma rstrip_idem : forall s, rstrip (rstrip s) = rstrip s.
Proof.
  intros s. unfold rstrip. rewrite rev_involutive. now rewrite lstrip_idem.
Qed.

Lemma strip_idem : forall s, strip (strip s) = strip s.
Proof.
  intros s. unfold strip.
  rewrite (lstrip_rstrip_fixed (lstrip s)) by apply lstrip_idem.
  apply rstrip_idem.
Qed.

Lemma forallb_rev : forall (f : char -> bool) s,
  forallb f (rev s) = forallb f s.
Proof.
  intros f s. induction s as [|c s IH]; [reflexivity|].
  simpl. rewrite forallb_app, IH. simpl. rewrite andb_true_r. apply andb_comm.
Qed.

(** Only a string of whitespace strips to the empty string. *)
Lemma strip_nil_iff : forall s, strip s = [] <-> forallb isspace s = true.
Proof.
  intros s. unfold strip, rstrip. split.
  - intros H. apply (f_equal (@rev char)) in H. rewrite rev_involutive in H.
    simpl in H. apply lstrip_nil_iff in H. rewrite forallb_rev in H.
    apply lstrip_nil_iff. rewrite <- (lstrip_idem s).
    now apply lstrip_nil_iff.
  - intros H. apply lstrip_nil_iff in H. rewrite H. reflexivity.
Qed.

Lemma truthy_true : forall (A : Type) (s : list A), truthy s = true <-> s <> [].
Proof. intros A [|x s]; simpl; split; congruence. Qed.

Lemma truthy_false : forall (A : Type) (s : list A), truthy s = false <-> s = [].
Proof. intros A [|x s]; simpl; split; congruence. Qed.

End StripFacts.

(** ** Sentence-aware chunking *)
Module SentenceFacts.
Import IndexDocuments StripFacts.

Lemma slice_len_le :
  forall (s : str) i j, 0 <= i -> i <= j -> len (slice s i j) <= j - i.
Proof.
  intros s i j Hi Hj. unfold slice, clamp_index, len.
  rewrite length_firstn.
  destruct (i <? 0) eqn:Ei; [apply Z.ltb_lt in Ei; lia|].
  destruct (j <? 0) eqn:Ej; [apply Z.ltb_lt in Ej; lia|].
  lia.
Qed.

Lemma range0_nonneg :
  forall stop step l,
    0 < step -> range0 stop step = Some l -> Forall (fun i => 0 <= i) l.
Proof.
  intros stop step l Hstep H. unfold range0 in H.
  destruct (step =? 0); [discriminate|]. injection H as <-.
  apply Forall_forall. intros i Hi. apply in_map_iff in Hi.
  destruct Hi as [k [<- _]]. nia.
Qed.

Lemma range0_some :
  forall stop step, step <> 0 -> exists l, range0 stop step = Some l.
Proof.
  intros stop step H. unfold range0.
  destruct (step =? 0) eqn:E; [apply Z.eqb_eq in E; contradiction|].
  eexists; reflexivity.
Qed.

(** A trimmed, non-empty slice of width [max_chars] is a good chunk. *)
Lemma part_ok :
  forall max_chars (s : str) i,
    0 < max_chars -> 0 <= i ->
    truthy (strip (slice s i (i + max_chars))) = true ->
    chunk_ok max_chars (strip (slice s i (i + max_chars))).
Proof.
  intros m s i Hm Hi Ht. repeat split.
  - apply strip_idem.
  - now apply truthy_true.
  - pose proof (strip_len (slice s i (i + m))).
    pose proof (slice_len_le s i (i + m)). lia.
Qed.

Section ForceSplit.
Variable max_chars : Z.
Hypothesis max_pos : 0 < max_chars.

Let add_part (s : str) :=
  fun (chunks : list str) (i : Z) =>
    let part := strip (slice s i (i + max_chars)) in
    if truthy part then chunks ++ [part] else chunks.

Lemma fold_parts_ok :
  forall s indices chunks,
    Forall (fun i => 0 <= i) indices ->
    Forall (chunk_ok max_chars) chunks ->
    Forall (chunk_ok max_chars) (fold_left (add_part s) indices chunks)
    /\ exists ext, fold_left (add_part s) indices chunks = chunks ++ ext.
Proof.
  intros s indices.
  induction indices as [|i indices IH]; intros chunks Hidx Hck; simpl.
  - split; [exact Hck | exists []; now rewrite app_nil_r].
  - inversion Hidx as [|? ? Hi Hrest]; subst.
    unfold add_part at 2 4.
    destruct (truthy (strip (slice s i (i + max_chars)))) eqn:E.
    + destruct (IH (chunks ++ [strip (slice s i (i + max_chars))]) Hrest)
        as [Hok [ext Hext]].
      { apply Forall_app. split; [exact Hck|].
        constructor; [now apply part_ok | constructor]. }
      split; [exact Hok|].
      eexists. rewrite Hext, <- app_assoc. reflexivity.
    + now apply IH.
Qed.

Lemma force_split_ok :
  forall s chunks,
    Forall (chunk_ok max_chars) chunks ->
    exists chunks',
      force_split s max_chars chunks = Some chunks'
      /\ Forall (chunk_ok max_chars) chunks'
      /\ exists ext, chunks' = chunks ++ ext.
Proof.
  intros s chunks Hck. unfold force_split.
  destruct (range0_some (len s) max_chars) as [l Hl]; [lia|].
  rewrite Hl. eexists. split; [reflexivity|].
  apply fold_parts_ok; [|exact Hck].
  now apply (range0_nonneg (len s) max_chars).
Qed.

Lemma flush_ok :
  forall chunks current,
    Forall (chunk_ok max_chars) chunks -> chunk_ok max_chars current ->
    Forall (chunk_ok max_chars) (chunks ++ [strip current]).
Proof.
  intros chunks current Hck Hcur. apply Forall_app. split; [exact Hck|].
  destruct Hcur as [Ht Hrest]. rewrite Ht. constructor; [|constructor].
  split; [exact Ht | exact Hrest].
Qed.

Lemma nonspace_of_ok :
  forall c, chunk_ok max_chars c -> forallb isspace c = false.
Proof.
  intros c [Ht [Hne _]]. destruct (forallb isspace c) eqn:E; [|reflexivity].
  apply strip_nil_iff in E. congruence.
Qed.

Lemma sentence_step_ok :
  forall st s, loop_invariant max_chars st ->
    exists st',
      sentence_step max_chars st s = Some st' /\ loop_invariant max_chars st'
      /\ exists ext, fst st' = fst st ++ ext.
Proof.
  intros [chunks current] s [Hck Hcur]. simpl in Hck, Hcur.
  unfold sentence_step.
  destruct (truthy (strip s)) eqn:Es; simpl negb; cbv iota.
  2:{ eexists. split; [reflexivity|]. split; [split; assumption|].
      exists []. simpl. now rewrite app_nil_r. }
  assert (Hs : strip s <> []) by now apply truthy_true.
  destruct (max_chars <? len (strip s)) eqn:Elen.
  - (* an oversized sentence *)
    destruct (truthy current) eqn:Ec.
    + assert (Hc : chunk_ok max_chars current).
      { destruct Hcur as [->|H]; [discriminate | exact H]. }
      destruct (force_split_ok (strip s) (chunks ++ [strip current]))
        as [chunks' [Hf [Hok [ext Hext]]]]; [now apply flush_ok|].
      rewrite Hf. eexists. split; [reflexivity|].
      split; [split; [exact Hok | now left]|].
      simpl. eexists. rewrite Hext, <- app_assoc. reflexivity.
    + destruct (force_split_ok (strip s) chunks Hck)
        as [chunks' [Hf [Hok [ext Hext]]]].
      rewrite Hf. eexists. split; [reflexivity|].
      apply truthy_false in Ec.
      split; [split; [exact Hok | now left]|].
      simpl. now exists ext.
  - apply Z.ltb_ge in Elen.
    assert (Hsok : chunk_ok max_chars (strip s)).
    { repeat split; [apply strip_idem | exact Hs | exact Elen]. }
    destruct (truthy current && (max_chars <? len current + 1 + len (strip s)))
      eqn:Ecut.
    + (* the accumulator is full *)
      apply andb_true_iff in Ecut. destruct Ecut as [Ec _].
      assert (Hc : chunk_ok max_chars current).
      { destruct Hcur as [->|H]; [discriminate | exact H]. }
      eexists. split; [reflexivity|].
      split; [split; [now apply flush_ok | now right]|].
      simpl. now eexists.
    + eexists. split; [reflexivity|].
      split; [|exists []; simpl; now rewrite app_nil_r].
      split; [exact Hck|]. simpl. right.
      destruct (truthy current) eqn:Ec; [|exact Hsok].
      simpl in Ecut. apply Z.ltb_ge in Ecut.
      assert (Hc : chunk_ok max_chars current).
      { destruct Hcur as [->|H]; [discriminate | exact H]. }
      repeat split.
      * apply strip_idem.
      * intros Hnil. apply strip_nil_iff in Hnil.
        rewrite forallb_app in Hnil. apply andb_true_iff in Hnil.
        rewrite (nonspace_of_ok current Hc) in Hnil. now destruct Hnil.
      * pose proof (strip_len (current ++ [space] ++ strip s)) as L.
        unfold len in *. rewrite !length_app in L. simpl in L. lia.
Qed.

Lemma sentence_loop_ok :
  forall sentences st, loop_invariant max_chars st ->
    exists st',
      sentence_loop max_chars st sentences = Some st' /\ loop_invariant max_chars st'
      /\ exists ext, fst st' = fst st ++ ext.
Proof.
  induction sentences as [|s rest IH]; intros st Hinv; simpl.
  - exists st. split; [reflexivity|]. split; [exact Hinv|].
    exists []. now rewrite app_nil_r.
  - destruct (sentence_step_ok st s Hinv) as [st1 [H1 [Hinv1 [e1 He1]]]].
    rewrite H1. destruct (IH st1 Hinv1) as [st2 [H2 [Hinv2 [e2 He2]]]].
    exists st2. split; [exact H2|]. split; [exact Hinv2|].
    exists (e1 ++ e2). rewrite He2, He1, app_assoc. reflexivity.
Qed.

(** A sentence of exactly [max_chars] characters takes the packing
    branch and becomes the accumulator, whole. *)
Lemma sentence_step_exact :
  forall chunks current s st',
    len (strip s) = max_chars ->
    sentence_step max_chars (chunks, current) s = Some st' ->
    snd st' = strip s.
Proof.
  intros chunks current s st' Hlen H. unfold sentence_step in H.
  assert (Hs : truthy (strip s) = true).
  { destruct (strip s); [unfold len in Hlen; simpl in Hlen; lia | reflexivity]. }
  rewrite Hs in H. simpl negb in H. cbv iota in H.
  rewrite Hlen, Z.ltb_irrefl in H.
  destruct (truthy current) eqn:Ec; simpl in H.
  - assert (E : (max_chars <? len current + 1 + max_chars) = true).
    { apply Z.ltb_lt. unfold len. lia. }
    rewrite E in H. now injection H as <-.
  - now injection H as <-.
Qed.

(** An accumulator of exactly [max_chars] characters takes nothing more:
    the next round leaves it alone (empty sentence) or emits it. *)
Lemma sentence_step_full :
  forall chunks current s st',
    len current = max_chars -> strip current = current ->
    sentence_step max_chars (chunks, current) s = Some st' ->
    st' = (chunks, current) \/ In current (fst st').
Proof.
  intros chunks current s st' Hlen Htrim H. unfold sentence_step in H.
  assert (Hc : truthy current = true).
  { destruct current; [unfold len in Hlen; simpl in Hlen; lia | reflexivity]. }
  destruct (truthy (strip s)) eqn:Es; simpl negb in H; cbv iota in H.
  2:{ left. now injection H as <-. }
  right. rewrite Hc in H.
  destruct (max_chars <? len (strip s)) eqn:Elen.
  - destruct (force_split (strip s) max_chars (chunks ++ [strip current]))
      as [chunks'|] eqn:Ef; [|discriminate].
    injection H as <-. simpl.
    unfold force_split in Ef.
    destruct (range0 (len (strip s)) max_chars) as [l|] eqn:El; [|discriminate].
    injection Ef as <-.
    assert (Hmono : forall l acc, In current acc ->
               In current (fold_left (add_part (strip s)) l acc)).
    { clear. induction l as [|i l IH]; intros acc Hin; simpl; [exact Hin|].
      apply IH. unfold add_part.
      destruct (truthy (strip (slice (strip s) i (i + max_chars))));
        [apply in_or_app; now left | exact Hin]. }
    apply Hmono. apply in_or_app. right. rewrite Htrim. now left.
  - simpl in H.
    assert (E : (max_chars <? len current + 1 + len (strip s)) = true).
    { apply Z.ltb_lt. unfold len in *. lia. }
    rewrite E in H. injection H as <-. simpl.
    apply in_or_app. right. rewrite Htrim. now left.
Qed.

Lemma sentence_loop_full :
  forall sentences chunks current st',
    Forall (chunk_ok max_chars) chunks ->
    len current = max_chars -> strip current = current ->
    sentence_loop max_chars (chunks, current) sentences = Some st' ->
    st' = (chunks, current) \/ In current (fst st').
Proof.
  induction sentences as [|s rest IH]; intros chunks current st' Hck Hlen Htrim H;
    cbn [sentence_loop] in H.
  - left. congruence.
  - destruct (sentence_step max_chars (chunks, current) s) as [st1|] eqn:E1;
      [|discriminate].
    destruct (sentence_step_full _ _ _ _ Hlen Htrim E1) as [->|Hin].
    + now apply IH.
    + right.
      assert (Hinv1 : loop_invariant max_chars st1).
      { destruct (sentence_step_ok (chunks, current) s) as [st1' [E1' [Hi _]]].
        - split; [exact Hck|]. simpl. right. repeat split; try assumption.
          + intros ->. unfold len in Hlen. simpl in Hlen. lia.
          + lia.
        - congruence. }
      destruct (sentence_loop_ok rest st1 Hinv1) as [st2 [E2 [_ [ext Hext]]]].
      rewrite H in E2. injection E2 as <-. rewrite Hext.
      apply in_or_app. now left.
Qed.

End ForceSplit.

End SentenceFacts.

(** C7: for [max_chars > 0], [chunk_by_sentences] returns, and every
    chunk it returns is trimmed, not empty and at most [max_chars] long,
    the slices of a force-split sentence included; a sentence of exactly
    [max_chars] characters is not force-split: it is one of the chunks,
    whole. *)
Theorem chunk_by_sentences_chunks_ok :
  forall text max_chars, 0 < max_chars ->
    exists chunks,
      IndexDocuments.chunk_by_sentences text max_chars = Some chunks
      /\ Forall (IndexDocuments.chunk_ok max_chars) chunks
      /\ forall s,
           In s (IndexDocuments.re_split_sentences (IndexDocuments.clean text)) ->
           len (strip s) = max_chars -> In (strip s) chunks.
Proof.
  intros text m Hm. unfold IndexDocuments.chunk_by_sentences.
  destruct (truthy (IndexDocuments.clean text)) eqn:Ecl; simpl negb; cbv iota.
  2:{ exists []. split; [reflexivity|]. split; [constructor|].
      apply StripFacts.truthy_false in Ecl. rewrite Ecl.
      intros s [<-|[]] Hlen. unfold len in Hlen. simpl in Hlen. lia. }
  set (sentences := IndexDocuments.re_split_sentences (IndexDocuments.clean text)).
  assert (Hinv0 : IndexDocuments.loop_invariant m ([], [])).
  { split; [constructor | now left]. }
  destruct (SentenceFacts.sentence_loop_ok m Hm sentences _ Hinv0)
    as [[chunks current] [Hloop [[Hck Hcur] _]]].
  rewrite Hloop. simpl in Hck, Hcur.
  eexists. split; [reflexivity|]. split.
  - destruct (truthy current) eqn:Ec; [|exact Hck].
    destruct Hcur as [->|Hc]; [discriminate|].
    now apply SentenceFacts.flush_ok.
  - intros s Hin Hlen.
    apply in_split in Hin. destruct Hin as [pre [post Hsplit]].
    assert (Hcat : forall l1 l2 st st2,
               IndexDocuments.sentence_loop m st (l1 ++ l2) = Some st2 ->
               exists st1, IndexDocuments.sentence_loop m st l1 = Some st1
                 /\ IndexDocuments.sentence_loop m st1 l2 = Some st2).
    { induction l1 as [|x l1 IH]; intros l2 st st2 H; simpl in *.
      - now exists st.
      - destruct (IndexDocuments.sentence_step m st x); [|discriminate].
        now apply IH. }
    rewrite Hsplit in Hloop.
    destruct (Hcat _ _ _ _ Hloop) as [st1 [Hpre Hrest]].
    simpl in Hrest.
    destruct (IndexDocuments.sentence_step m st1 s) as [st2|] eqn:Estep;
      [|discriminate].
    destruct (SentenceFacts.sentence_loop_ok m Hm pre _ Hinv0)
      as [st1' [Hpre' [Hinv1 _]]].
    rewrite Hpre in Hpre'. injection Hpre' as <-.
    destruct (SentenceFacts.sentence_step_ok m Hm st1 s Hinv1)
      as [st2' [Estep' [Hinv2 _]]].
    rewrite Estep in Estep'. injection Estep' as <-.
    destruct st1 as [chunks1 current1]. destruct st2 as [chunks2 current2].
    pose proof (SentenceFacts.sentence_step_exact m Hm _ _ _ _ Hlen Estep) as Hc2.
    simpl in Hc2. subst current2.
    destruct Hinv2 as [Hck2 _]. simpl in Hck2.
    destruct (SentenceFacts.sentence_loop_full m Hm post chunks2 (strip s)
                (chunks, current) Hck2 Hlen (StripFacts.strip_idem s) Hrest)
      as [Heq|Hin].
    + injection Heq as -> ->.
      assert (Ht : truthy (strip s) = true).
      { destruct (strip s); [unfold len in Hlen; simpl in Hlen; lia | reflexivity]. }
      rewrite Ht. apply in_or_app. right. rewrite StripFacts.strip_idem. now left.
    + simpl in Hin. destruct (truthy current); [|exact Hin].
      apply in_or_app. now left.
Qed.

(** C7 on a text whose first sentence, ["Go now."], has exactly
    [max_chars = 7] characters. *)
Lemma chunk_by_sentences_chunks_ok_witness :
  exists chunks,
    IndexDocuments.chunk_by_sentences (of_string "Go now. Stop.") 7
    = Some chunks
    /\ Forall (IndexDocuments.chunk_ok 7) chunks
    /\ forall s,
         In s (IndexDocuments.re_split_sentences
                 (IndexDocuments.clean (of_string "Go now. Stop."))) ->
         len (strip s) = 7 -> In (strip s) chunks.
Proof. apply (chunk_by_sentences_chunks_ok (of_string "Go now. Stop.") 7). lia. Defined.

(** C2 (as amended): the input splits into the sentences ["Hi."],
    ["World is big."], ["X."], and the chunks are ["Hi."],
    ["World is b"], ["ig."], ["X."]: the 13-character sentence is cut
    into slices of 10 characters, not at a word boundary. *)
Theorem chunk_by_sentences_example :
  IndexDocuments.re_split_sentences
    (IndexDocuments.clean (of_string "Hi. World is big. X."))
  = [of_string "Hi."; of_string "World is big."; of_string "X."]
  /\ IndexDocuments.chunk_by_sentences (of_string "Hi. World is big. X.") 10
     = Some [of_string "Hi."; of_string "World is b"; of_string "ig.";
             of_string "X."].
Proof. split; vm_compute; reflexivity. Qed.

(** C2 (counterexample): the list ["Hi."], ["World is"], ["big."],
    ["X."] is not the one returned; the second chunk is ["World is b"]. *)
Lemma chunk_by_sentences_example_differs :
  IndexDocuments.chunk_by_sentences (of_string "Hi. World is big. X.") 10
  <> Some [of_string "Hi."; of_string "World is"; of_string "big.";
           of_string "X."]
  /\ option_map (fun chunks => nth 1 chunks [])
       (IndexDocuments.chunk_by_sentences (of_string "Hi. World is big. X.") 10)
     = Some (of_string "World is b").
Proof. split; [vm_compute; discriminate | vm_compute; reflexivity]. Qed.

(** ** Floating-point facts used by the similarity *)
Module FloatFacts.
Import PyNum.

Lemma fmul_comm : forall x y, fmul x y = fmul y x.
Proof.
  intros [sx|sx| |sx mx ex] [sy|sy| |sy my ey]; unfold fmul; simpl;
    try reflexivity; try (now rewrite xorb_comm).
  now rewrite xorb_comm, Pos.mul_comm, Z.add_comm.
Qed.

(** [x == x] for every float but NaN. *)
Lemma feqb_refl : forall x, is_nan x = false -> feqb x x = true.
Proof.
  intros [s|s| |s m e] H; try discriminate; try reflexivity;
    unfold feqb, SFeqb, SFcompare; destruct s; try reflexivity;
    rewrite Z.compare_refl;
    change (Pos.compare_cont Eq m m) with (m ?= m)%positive;
    now rewrite Pos.compare_refl.
Qed.

Lemma binary_round_aux_sign :
  forall sx mx ex lx,
    match binary_round_aux prec emax sx mx ex lx with
    | S754_zero s | S754_infinity s | S754_finite s _ _ => s = sx
    | S754_nan => True
    end.
Proof.
  intros sx mx ex lx. unfold binary_round_aux.
  destruct (shr_fexp prec emax mx ex lx) as [mrs' e'].
  destruct (shr_fexp prec emax _ e' loc_Exact) as [mrs'' e''].
  destruct (shr_m mrs''); auto.
  destruct (e'' <=? emax - prec); reflexivity.
Qed.

Lemma fmul_square_not_negative : forall x, not_negative (fmul x x).
Proof.
  intros [s|s| |s m e]; unfold fmul; simpl; auto.
  - now destruct s.
  - rewrite xorb_nilpotent.
    pose proof (binary_round_aux_sign false (Z.pos (m * m)) (e + e) loc_Exact)
      as H.
    destruct (binary_round_aux prec emax false (Z.pos (m * m)) (e + e)
                loc_Exact); simpl; auto; now subst.
Qed.

Lemma fadd_not_negative :
  forall x y, not_negative x -> not_negative y -> not_negative (fadd x y).
Proof.
  intros [sx|sx| |sx mx ex] [sy|sy| |sy my ey] Hx Hy; unfold fadd; simpl;
    auto; try (destruct sx; destruct sy; simpl in *; now auto).
  destruct sx; [contradiction|]. destruct sy; [contradiction|].
  simpl. unfold binary_round.
  destruct (shl_align _ _ _) as [mz ez].
  pose proof (binary_round_aux_sign false (Z.pos mz) ez loc_Exact) as H.
  destruct (binary_round_aux prec emax false (Z.pos mz) ez loc_Exact);
    simpl; auto; now subst.
Qed.

Lemma sum_squares_not_negative :
  forall a acc, not_negative acc ->
    not_negative (fold_left (fun acc x => fadd acc (fmul x x)) a acc).
Proof.
  induction a as [|x a IH]; intros acc H; simpl; [exact H|].
  apply IH. apply fadd_not_negative; [exact H | apply fmul_square_not_negative].
Qed.

Lemma math_sqrt_not_negative :
  forall x, not_negative x -> math_sqrt x = Some (fsqrt x).
Proof.
  intros [s|s| |s m e] H; unfold math_sqrt; simpl; try reflexivity.
  - now destruct s.
  - now destruct s.
Qed.

End FloatFacts.

(** ** Cosine similarity *)
Module CosineFacts.
Import PyNum Search FloatFacts.

(** The single loop of the code computes the three sums of the formula. *)
Lemma loop_sums :
  forall (l : list (float * float)) d na nb,
    fold_left
      (fun '(dot, na, nb) '(x, y) =>
         (fadd dot (fmul x y), fadd na (fmul x x), fadd nb (fmul y y)))
      l (d, na, nb)
    = (fold_left (fun acc '(x, y) => fadd acc (fmul x y)) l d,
       fold_left (fun acc x => fadd acc (fmul x x)) (map fst l) na,
       fold_left (fun acc x => fadd acc (fmul x x)) (map snd l) nb).
Proof.
  induction l as [|[x y] l IH]; intros d na nb; simpl; [reflexivity|].
  apply IH.
Qed.

Lemma combine_fst :
  forall (a b : list float), length a = length b -> map fst (combine a b) = a.
Proof.
  induction a as [|x a IH]; intros [|y b] H; simpl in *; try discriminate;
    [reflexivity|]. f_equal. apply IH. lia.
Qed.

Lemma combine_snd :
  forall (a b : list float), length a = length b -> map snd (combine a b) = b.
Proof.
  induction a as [|x a IH]; intros [|y b] H; simpl in *; try discriminate;
    [reflexivity|]. f_equal. apply IH. lia.
Qed.

Lemma len_eqb : forall (a b : list float),
  (len a =? len b) = (length a =? length b)%nat.
Proof.
  intros a b. unfold len.
  destruct (Nat.eqb_spec (length a) (length b)) as [E|E].
  - rewrite E. apply Z.eqb_refl.
  - apply Z.eqb_neq. lia.
Qed.

(** The code computes the formula and raises nothing. *)
Lemma cosine_similarity_spec :
  forall a b, cosine_similarity a b = Some (cosine_spec a b).
Proof.
  intros a b. unfold cosine_similarity, cosine_spec.
  destruct a as [|x a]; [reflexivity|].
  destruct b as [|y b]; [reflexivity|].
  cbn [truthy negb orb]. rewrite len_eqb.
  destruct (length (x :: a) =? length (y :: b))%nat eqn:E; cbn [negb];
    [|reflexivity].
  apply Nat.eqb_eq in E.
  rewrite loop_sums, (combine_fst _ _ E), (combine_snd _ _ E).
  rewrite !math_sqrt_not_negative
    by (apply sum_squares_not_negative; exact I).
  fold (norm (x :: a)) (norm (y :: b)) (dot (x :: a) (y :: b)).
  unfold truediv.
  destruct (feqb (fmul (norm (x :: a)) (norm (y :: b))) zero); reflexivity.
Qed.

Lemma dot_comm_from :
  forall a b acc,
    fold_left (fun acc '(x, y) => fadd acc (fmul x y)) (combine a b) acc
    = fold_left (fun acc '(x, y) => fadd acc (fmul x y)) (combine b a) acc.
Proof.
  induction a as [|x a IH]; intros [|y b] acc; simpl; try reflexivity.
  rewrite (fmul_comm x y). apply IH.
Qed.

Lemma cosine_spec_sym : forall a b, cosine_spec a b = cosine_spec b a.
Proof.
  intros a b. unfold cosine_spec.
  destruct a as [|x a], b as [|y b]; try reflexivity.
  rewrite (Nat.eqb_sym (length (x :: a))).
  rewrite (fmul_comm (norm (x :: a))).
  unfold dot. now rewrite dot_comm_from.
Qed.

End CosineFacts.

(** C6: [cosine_similarity(a, b)] raises nothing and returns
    [dot(a,b) / (||a|| * ||b||)], the sums, roots, product and quotient
    taken in double precision; it returns negative infinity when a vector
    is empty, the dimensions differ or the denominator compares equal to
    zero. *)
Theorem cosine_similarity_formula :
  forall a b : list PyNum.float,
    Search.cosine_similarity a b
    = Some
        (if (length a =? 0)%nat || (length b =? 0)%nat
            || negb (length a =? length b)%nat
         then PyNum.neg_inf
         else if PyNum.feqb (PyNum.fmul (Search.norm a) (Search.norm b))
                   PyNum.zero
         then PyNum.neg_inf
         else PyNum.fdiv (Search.dot a b)
                (PyNum.fmul (Search.norm a) (Search.norm b))).
Proof.
  intros a b. rewrite CosineFacts.cosine_similarity_spec.
  unfold Search.cosine_spec.
  destruct a as [|x a], b as [|y b]; reflexivity.
Qed.

(** C10: [cosine_similarity] is symmetric: for all vectors [a] and [b]
    both orders return, raising nothing, and they return the same value
    [v].  In the guard cases (a vector is empty, the dimensions differ,
    the denominator of either order compares equal to zero) [v] is
    negative infinity.  When [v] is not a NaN the two results compare
    equal with [==]; the floats of this development have one NaN, so
    that when [v] is a NaN what is stated is that both orders return a
    NaN. *)
Theorem cosine_similarity_sym :
  forall a b : list PyNum.float,
    exists v,
      Search.cosine_similarity a b = Some v
      /\ Search.cosine_similarity b a = Some v
      /\ (a = [] \/ b = [] \/ length a <> length b
          \/ PyNum.feqb (PyNum.fmul (Search.norm a) (Search.norm b))
               PyNum.zero = true
          \/ PyNum.feqb (PyNum.fmul (Search.norm b) (Search.norm a))
               PyNum.zero = true ->
          v = PyNum.neg_inf)
      /\ (PyNum.is_nan v = false -> PyNum.feqb v v = true).
Proof.
  intros a b. exists (Search.cosine_spec a b).
  split; [apply CosineFacts.cosine_similarity_spec|].
  split.
  { rewrite CosineFacts.cosine_similarity_spec. f_equal.
    symmetry. apply CosineFacts.cosine_spec_sym. }
  split; [|apply FloatFacts.feqb_refl].
  assert (Hzero :
            PyNum.feqb (PyNum.fmul (Search.norm a) (Search.norm b))
              PyNum.zero = true ->
            Search.cosine_spec a b = PyNum.neg_inf).
  { intros Hz. unfold Search.cosine_spec.
    destruct a as [|x a], b as [|y b]; try reflexivity.
    destruct (negb (length (x :: a) =? length (y :: b))%nat);
      [reflexivity|].
    cbv zeta. now rewrite Hz. }
  intros [Ha|[Hb|[Hlen|[Hz|Hz]]]].
  - now subst a.
  - subst b. now destruct a.
  - unfold Search.cosine_spec.
    destruct a as [|x a], b as [|y b]; try reflexivity.
    apply Nat.eqb_neq in Hlen. now rewrite Hlen.
  - now apply Hzero.
  - apply Hzero. now rewrite FloatFacts.fmul_comm.
Qed.

(** The guard cases of C10 on inputs: an empty vector, two dimensions,
    a zero vector; each order returns negative infinity. *)
Example cosine_similarity_guards :
  Search.cosine_similarity [] [PyNum.pow2 0] = Some PyNum.neg_inf
  /\ Search.cosine_similarity [PyNum.pow2 0] [] = Some PyNum.neg_inf
  /\ Search.cosine_similarity [PyNum.pow2 0] [PyNum.pow2 0; PyNum.zero]
     = Some PyNum.neg_inf
  /\ Search.cosine_similarity [PyNum.pow2 0; PyNum.zero] [PyNum.pow2 0]
     = Some PyNum.neg_inf
  /\ Search.cosine_similarity [PyNum.zero] [PyNum.pow2 0] = Some PyNum.neg_inf
  /\ Search.cosine_similarity [PyNum.pow2 0] [PyNum.zero] = Some PyNum.neg_inf.
Proof. repeat split; vm_compute; reflexivity. Qed.

(** The similarity of [1, 0] with itself is 1.0. *)
Example cosine_similarity_self :
  Search.cosine_similarity [PyNum.pow2 0; PyNum.zero] [PyNum.pow2 0; PyNum.zero]
  = Some (PyNum.pow2 0).
Proof. vm_compute. reflexivity. Qed.

(** Finite vectors whose dot product overflows: infinity divided by
    infinity, NaN. *)
Example cosine_similarity_overflow :
  Search.cosine_similarity [PyNum.pow2 40; PyNum.zero] [PyNum.pow2 1000; PyNum.zero]
  = Some S754_nan.
Proof. vm_compute. reflexivity. Qed.

(** The same vectors in the other order: NaN again. *)
Example cosine_similarity_overflow_swapped :
  Search.cosine_similarity [PyNum.pow2 1000; PyNum.zero] [PyNum.pow2 40; PyNum.zero]
  = Some S754_nan.
Proof. vm_compute. reflexivity. Qed.

(** ** Order of floats *)
Module OrderFacts.
Import PyNum.

Ltac cmp_cases :=
  repeat match goal with
  | |- context [Z.compare ?a ?b] => destruct (Z.compare_spec a b)
  | H : context [Z.compare ?a ?b] |- _ => destruct (Z.compare_spec a b)
  | |- context [Pos.compare_cont Eq ?a ?b] =>
      change (Pos.compare_cont Eq a b) with (Pos.compare a b);
      destruct (Pos.compare_spec a b)
  | H : context [Pos.compare_cont Eq ?a ?b] |- _ =>
      change (Pos.compare_cont Eq a b) with (Pos.compare a b) in H;
      destruct (Pos.compare_spec a b)
  end.

Ltac by_cases :=
  cmp_cases; simpl in *; try discriminate; try reflexivity; try lia.

Lemma fleb_trans :
  forall x y z, fleb x y = true -> fleb y z = true -> fleb x z = true.
Proof.
  intros [sx|sx| |sx mx ex] [sy|sy| |sy my ey] [sz|sz| |sz mz ez];
    unfold fleb, SFleb, SFcompare;
    try destruct sx; try destruct sy; try destruct sz; simpl;
    try discriminate; try reflexivity; intros H1 H2; by_cases.
Qed.

(** Without NaN the order is total. *)
Lemma fltb_false_fleb :
  forall x y, is_nan x = false -> is_nan y = false ->
    fltb x y = false -> fleb y x = true.
Proof.
  intros [sx|sx| |sx mx ex] [sy|sy| |sy my ey];
    unfold fltb, fleb, SFltb, SFleb, SFcompare;
    try destruct sx; try destruct sy; simpl;
    try discriminate; try reflexivity; intros _ _ H; by_cases.
Qed.

Lemma fltb_fleb : forall x y, fltb x y = true -> fleb x y = true.
Proof.
  intros x y. unfold fltb, fleb, SFltb, SFleb.
  destruct (SFcompare x y) as [[| |]|]; try discriminate; reflexivity.
Qed.

(** Two floats equal to a third are not strictly ordered. *)
Lemma feqb_not_fltb :
  forall x y s, feqb x s = true -> feqb y s = true -> fltb x y = false.
Proof.
  intros [sx|sx| |sx mx ex] [sy|sy| |sy my ey] [sz|sz| |sz mz ez];
    unfold feqb, fltb, SFeqb, SFltb, SFcompare;
    try destruct sx; try destruct sy; try destruct sz; simpl;
    try discriminate; try reflexivity; intros H1 H2; by_cases.
Qed.

End OrderFacts.

(** ** The sort of the ranking *)
Module SortFacts.
Import PyNum Search OrderFacts.

Lemma insert_by_score_perm :
  forall x l, Permutation (insert_by_score x l) (x :: l).
Proof.
  intros x l. induction l as [|y l IH]; simpl; [reflexivity|].
  destruct (fltb (fst x) (fst y)); [|reflexivity].
  rewrite IH. apply perm_swap.
Qed.

Lemma sort_by_score_reverse_perm :
  forall l, Permutation (sort_by_score_reverse l) l.
Proof.
  induction l as [|x l IH]; simpl; [reflexivity|].
  rewrite insert_by_score_perm. now constructor.
Qed.

Lemma insert_by_score_descending :
  forall x l,
    is_nan (fst x) = false -> Forall (fun e => is_nan (fst e) = false) l ->
    descending l -> descending (insert_by_score x l).
Proof.
  intros x l Hx. unfold descending.
  induction l as [|y l IH]; intros Hl Hs; simpl.
  - constructor; constructor.
  - inversion Hl as [|? ? Hy Hl']; subst.
    inversion Hs as [|? ? Hs' Hall]; subst.
    destruct (fltb (fst x) (fst y)) eqn:E.
    + constructor; [now apply IH|].
      apply Forall_forall. intros z Hz.
      apply (Permutation_in _ (insert_by_score_perm x l)) in Hz.
      destruct Hz as [<-|Hz]; [now apply fltb_fleb|].
      rewrite Forall_forall in Hall. now apply Hall.
    + assert (Hyx : fleb (fst y) (fst x) = true)
        by now apply fltb_false_fleb.
      constructor; [exact Hs|].
      constructor; [exact Hyx|].
      apply Forall_forall. intros z Hz.
      rewrite Forall_forall in Hall.
      apply fleb_trans with (y := fst y); [now apply Hall | exact Hyx].
Qed.

Lemma sort_by_score_reverse_descending :
  forall l, Forall (fun e => is_nan (fst e) = false) l ->
    descending (sort_by_score_reverse l).
Proof.
  induction l as [|x l IH]; intros H; simpl.
  - constructor.
  - inversion H as [|? ? Hx Hl]; subst.
    apply insert_by_score_descending; [exact Hx | | now apply IH].
    apply Forall_forall. intros z Hz.
    apply (Permutation_in _ (sort_by_score_reverse_perm l)) in Hz.
    rewrite Forall_forall in Hl. now apply Hl.
Qed.

(** Stability: the sort does not reorder entries with equal scores. *)
Lemma insert_by_score_tied :
  forall s x l, tied s (insert_by_score x l) = tied s (x :: l).
Proof.
  intros s x l. unfold tied.
  induction l as [|y l IH]; [reflexivity|].
  cbn [insert_by_score].
  destruct (fltb (fst x) (fst y)) eqn:E; [|reflexivity].
  cbn [filter] in *. rewrite IH.
  destruct (feqb (fst x) s) eqn:Ex, (feqb (fst y) s) eqn:Ey; try reflexivity.
  rewrite (feqb_not_fltb _ _ _ Ex Ey) in E. discriminate.
Qed.

Lemma sort_by_score_reverse_tied :
  forall s l, tied s (sort_by_score_reverse l) = tied s l.
Proof.
  intros s l. induction l as [|x l IH]; [reflexivity|].
  cbn [sort_by_score_reverse fold_right].
  fold (sort_by_score_reverse l). rewrite insert_by_score_tied.
  unfold tied in *. cbn [filter]. now rewrite IH.
Qed.

Lemma descending_firstn :
  forall n l, descending l -> descending (firstn n l).
Proof.
  unfold descending. induction n as [|n IH]; intros [|x l] H; simpl;
    try constructor.
  - apply IH. now inversion H.
  - inversion H as [|? ? _ Hall]; subst.
    rewrite Forall_forall in *. intros z Hz. apply Hall.
    rewrite <- (firstn_skipn n l). apply in_or_app. now left.
Qed.

Lemma slice_firstn :
  forall (A : Type) (l : list A) k,
    0 <= k -> Py.slice l 0 k = firstn (Z.to_nat k) l.
Proof.
  intros A l k Hk. unfold Py.slice, Py.clamp_index.
  destruct (k <? 0) eqn:E; [apply Z.ltb_lt in E; lia|].
  change (0 <? 0) with false. cbv iota.
  replace (Z.min 0 (Py.len l)) with 0 by (unfold Py.len; lia).
  rewrite Z.sub_0_r. cbn [Z.to_nat skipn].
  destruct (Z.le_ge_cases k (Py.len l)) as [H|H].
  - now rewrite Z.min_l.
  - rewrite Z.min_r by lia. unfold Py.len in *.
    rewrite !firstn_all2 by lia. reflexivity.
Qed.

End SortFacts.

(** ** The ranking *)
Module RankingFacts.
Import PyNum Search SortFacts.

Lemma score_step_spec :
  forall q scored skipped c,
    score_step q (scored, skipped) c
    = Some (if valid_embedding c
            then (scored ++ [(score_of q c, c)], skipped)
            else (scored, skipped + 1)).
Proof.
  intros q scored skipped c.
  unfold score_step, valid_embedding, score_of, emb_vec.
  destruct (c_embedding c) as [| | | | |emb|]; try reflexivity.
  destruct (Py.len emb =? 0); [reflexivity|]. cbn [negb andb].
  destruct (floats_of emb) as [v|]; [|reflexivity].
  now rewrite CosineFacts.cosine_similarity_spec.
Qed.

(** The loop keeps the valid candidates, in input order, and counts the
    others. *)
Lemma score_loop_spec :
  forall q chunks scored skipped,
    score_loop q (scored, skipped) chunks
    = Some (scored ++ scored_of q chunks,
            skipped + (Py.len chunks - Py.len (filter valid_embedding chunks))).
Proof.
  intros q. unfold scored_of.
  induction chunks as [|c chunks IH]; intros scored skipped.
  - simpl. rewrite app_nil_r. f_equal. f_equal. unfold Py.len. simpl. lia.
  - cbn [score_loop]. rewrite score_step_spec. cbn [filter].
    destruct (valid_embedding c).
    + rewrite IH. cbn [map]. rewrite <- app_assoc. f_equal. f_equal.
      unfold Py.len. cbn [length]. lia.
    + rewrite IH. f_equal. f_equal. unfold Py.len. cbn [length]. lia.
Qed.

Lemma ranking_spec :
  forall q chunks top_k, 0 <= top_k ->
    ranking q chunks top_k
    = Some (firstn (Z.to_nat top_k) (sort_by_score_reverse (scored_of q chunks)),
            Py.len chunks - Py.len (filter valid_embedding chunks)).
Proof.
  intros q chunks k Hk. unfold ranking.
  rewrite score_loop_spec. cbn [app]. now rewrite slice_firstn.
Qed.

Lemma scored_of_entry :
  forall q chunks e,
    In e (scored_of q chunks) ->
    In (snd e) chunks /\ valid_embedding (snd e) = true
    /\ cosine_similarity q (emb_vec (snd e)) = Some (fst e).
Proof.
  intros q chunks e H. unfold scored_of in H. apply in_map_iff in H.
  destruct H as [c [<- Hc]]. apply filter_In in Hc. destruct Hc as [Hin Hv].
  cbn [fst snd]. repeat split; try assumption.
  apply CosineFacts.cosine_similarity_spec.
Qed.

End RankingFacts.

(** C5 (as amended): for [top_k > 0] the ranking returns
    [min(top_k, number of kept candidates)] entries, each a candidate
    whose embedding is a non-empty list of values [float()] converts,
    with its similarity to the query; and when no score is NaN, the
    entries are in descending order of score and entries with equal
    scores are in input order (the sort is stable, and those first in
    the input are the ones retained). *)
Theorem ranking_top_k :
  forall query_emb chunks top_k, 0 < top_k ->
    exists top skipped,
      Search.ranking query_emb chunks top_k = Some (top, skipped)
      /\ len top = Z.min top_k (len (filter Search.valid_embedding chunks))
      /\ Forall (fun e =>
                   In (snd e) chunks
                   /\ Search.valid_embedding (snd e) = true
                   /\ Search.cosine_similarity query_emb
                        (Search.emb_vec (snd e)) = Some (fst e)) top
      /\ (Forall (fun c => PyNum.is_nan (Search.score_of query_emb c) = false)
            (filter Search.valid_embedding chunks) ->
          Search.descending top
          /\ forall s, exists rest,
               Search.tied s (Search.scored_of query_emb chunks)
               = Search.tied s top ++ rest).
Proof.
  intros q chunks k Hk.
  rewrite RankingFacts.ranking_spec by lia.
  set (sorted := Search.sort_by_score_reverse (Search.scored_of q chunks)).
  assert (Hperm : Permutation sorted (Search.scored_of q chunks))
    by apply SortFacts.sort_by_score_reverse_perm.
  do 2 eexists. split; [reflexivity|]. split; [|split].
  - unfold len. rewrite length_firstn, (Permutation_length Hperm).
    unfold Search.scored_of. rewrite length_map. lia.
  - apply Forall_forall. intros e He.
    apply (RankingFacts.scored_of_entry q chunks).
    apply (Permutation_in _ Hperm).
    rewrite <- (firstn_skipn (Z.to_nat k) sorted). apply in_or_app. now left.
  - intros Hnan. split.
    + apply SortFacts.descending_firstn.
      apply SortFacts.sort_by_score_reverse_descending.
      unfold Search.scored_of. apply Forall_forall. intros e He.
      apply in_map_iff in He. destruct He as [c [<- Hc]].
      rewrite Forall_forall in Hnan. now apply Hnan.
    + intros s. exists (Search.tied s (skipn (Z.to_nat k) sorted)).
      rewrite <- (SortFacts.sort_by_score_reverse_tied s).
      fold sorted. unfold Search.tied. rewrite <- filter_app.
      now rewrite firstn_skipn.
Qed.

(** C5 on the ranking example of the specification: query [1, 0],
    candidates [1, 0], [0, 1], [-1, 0], [top_k = 2]; no score is NaN. *)
Lemma ranking_top_k_witness :
  exists top skipped,
    Search.ranking Examples.unit_query Examples.unit_candidates 2
    = Some (top, skipped)
    /\ len top = 2
    /\ Search.descending top.
Proof.
  destruct (ranking_top_k Examples.unit_query Examples.unit_candidates 2)
    as [top [skipped [Hrun [Hlen [_ Hsorted]]]]]; [lia|].
  exists top, skipped. split; [exact Hrun|]. split; [exact Hlen|].
  apply Hsorted.
  change (filter Search.valid_embedding Examples.unit_candidates)
    with Examples.unit_candidates.
  unfold Examples.unit_candidates.
  repeat (constructor; [vm_compute; reflexivity|]). constructor.
Defined.

(** C5 (counterexample): with the finite embeddings of
    [Examples.large_candidates] the second score is NaN (infinity
    divided by infinity), the three entries come out in input order, and
    the first score, 0.0, is less than the third, 1.0: the output is not
    in descending order. *)
Lemma ranking_nan_not_descending :
  Search.ranking Examples.large_query Examples.large_candidates 5
  = Some (Examples.large_ranked, 0)
  /\ Forall (fun c => forallb PyNum.is_finite (Search.emb_vec c) = true)
       Examples.large_candidates
  /\ PyNum.fltb PyNum.zero Examples.one = true
  /\ ~ Search.descending Examples.large_ranked.
Proof.
  split; [vm_compute; reflexivity|].
  split; [unfold Examples.large_candidates;
          repeat (constructor; [vm_compute; reflexivity|]); constructor|].
  split; [vm_compute; reflexivity|].
  intros H. inversion H as [|? ? _ Hall]; subst.
  inversion Hall as [|? ? Hnan _]; subst. discriminate Hnan.
Qed.

(** ** Validation of the embedding response *)
Module EmbedFacts.
Import PyNum Env.

Lemma floats_of_some :
  forall items xs,
    floats_of items = Some xs
    <-> Forall2 (fun v x => float_of v = Some x) items xs.
Proof.
  induction items as [|v items IH]; intros xs; simpl.
  - split.
    + intros H. injection H as <-. constructor.
    + intros H. inversion H. reflexivity.
  - destruct (float_of v) as [x|] eqn:Ev.
    + destruct (floats_of items) as [ys|] eqn:El.
      * split.
        -- intros H. injection H as <-. constructor; [exact Ev|].
           now apply IH.
        -- intros H. inversion H as [|? y ? ys' Hv Hrest]; subst.
           apply IH in Hrest. congruence.
      * split; [discriminate|].
        intros H. inversion H as [|? y ? ys' Hv Hrest]; subst.
        apply IH in Hrest. discriminate.
    + split; [discriminate|].
      intros H. inversion H; subst. congruence.
Qed.

Lemma floats_of_floats : forall xs, floats_of (map PyFloat xs) = Some xs.
Proof.
  induction xs as [|x xs IH]; simpl; [reflexivity|]. now rewrite IH.
Qed.

Lemma embed_text_same :
  forall c text, Search.embed_text c text = Embedder.embed_text c text.
Proof. reflexivity. Qed.

Lemma embed_text_ok_iff :
  forall c text xs,
    Embedder.embed_text c text = Ok xs
    <-> exists items,
          c text = ApiValues (PyList items) /\ items <> []
          /\ Forall2 (fun v x => float_of v = Some x) items xs.
Proof.
  intros c text xs. unfold Embedder.embed_text. split.
  - destruct (c text) as [e|e|vec]; try discriminate.
    destruct vec as [| | | | |items|]; try discriminate.
    destruct (Py.len items =? 0) eqn:El; [discriminate|].
    destruct (floats_of items) as [ys|] eqn:Ef; [|discriminate].
    intros H. injection H as <-. exists items. split; [reflexivity|].
    split; [|now apply floats_of_some].
    intros ->. discriminate.
  - intros [items [-> [Hne Hall]]].
    destruct items as [|v items]; [contradiction|].
    change (Py.len (v :: items) =? 0) with false. cbv iota.
    apply floats_of_some in Hall. now rewrite Hall.
Qed.

End EmbedFacts.

(** C3 (as amended): [embed_text], in both files, returns a vector
    exactly when the response is a non-empty list every element of which
    [float()] converts, and then returns the converted values; in every
    other case it raises one of its errors.  There is no finiteness
    check: a list of floats is returned as it is, NaN and infinities
    included. *)
Theorem embed_text_validation :
  forall (c : Env.client) (text : str),
    Search.embed_text c text = Embedder.embed_text c text
    /\ (forall xs,
          Embedder.embed_text c text = Env.Ok xs
          <-> exists items,
                c text = Env.ApiValues (PyNum.PyList items) /\ items <> []
                /\ Forall2 (fun v x => PyNum.float_of v = Some x) items xs)
    /\ ((forall xs, Embedder.embed_text c text <> Env.Ok xs)
        -> exists e, Embedder.embed_text c text = Env.Raise e)
    /\ (forall xs,
          xs <> [] ->
          c text = Env.ApiValues (PyNum.PyList (map PyNum.PyFloat xs)) ->
          Embedder.embed_text c text = Env.Ok xs).
Proof.
  intros c text. split; [reflexivity|]. split; [|split].
  - intros xs. apply EmbedFacts.embed_text_ok_iff.
  - intros H. destruct (Embedder.embed_text c text) as [xs|e].
    + now elim (H xs).
    + now exists e.
  - intros xs Hne Hc. apply EmbedFacts.embed_text_ok_iff.
    exists (map PyNum.PyFloat xs). split; [exact Hc|]. split.
    + destruct xs; [contradiction | discriminate].
    + apply EmbedFacts.floats_of_some, EmbedFacts.floats_of_floats.
Qed.

(** C3 (counterexample): a response holding NaN and infinity is
    accepted, and the two values are returned. *)
Lemma embed_text_accepts_non_finite :
  Embedder.embed_text Examples.non_finite_client (of_string "query")
  = Env.Ok [S754_nan; S754_infinity false]
  /\ Search.embed_text Examples.non_finite_client (of_string "query")
     = Env.Ok [S754_nan; S754_infinity false]
  /\ forallb PyNum.is_finite [S754_nan; S754_infinity false] = false.
Proof. repeat split. Qed.

(** ** The back-fill run *)
Module BackfillFacts.
Import Py PyNum Env Embedder.

Lemma totals_none :
  forall code st l,
    forallb (fun x => negb (is_done x)) (printed st ++ l) = true ->
    reported_totals (leave code st l) = None.
Proof.
  intros code st l H. unfold reported_totals, leave. cbn [output].
  induction (printed st ++ l) as [|x xs IH]; [reflexivity|].
  cbn [forallb] in H. apply andb_true_iff in H. destruct H as [Hx Hxs].
  cbn [flat_map]. destruct x; try discriminate; cbn [app]; now apply IH.
Qed.

(** A round prints no "Done." line; a round that raises writes nothing
    and prints nothing. *)
Lemma chunk_step_no_done :
  forall w st r st' res,
    chunk_step w st r = (st', res) ->
    forallb (fun x => negb (is_done x)) (printed st) = true ->
    forallb (fun x => negb (is_done x)) (printed st') = true.
Proof.
  intros w st [cid [text|]] st' res H Hst; unfold chunk_step in H.
  - destruct (blank (Some text)).
    + injection H as <- _. cbn [printed]. rewrite forallb_app, Hst. reflexivity.
    + destruct (embed_text _ text) as [vec|e].
      * destruct (update_error_at w _ cid vec).
        -- injection H as <- _. exact Hst.
        -- injection H as <- _. cbn [printed].
           rewrite forallb_app, Hst. reflexivity.
      * injection H as <- _. exact Hst.
  - injection H as <- _. cbn [printed]. rewrite forallb_app, Hst. reflexivity.
Qed.

Lemma chunk_loop_no_done :
  forall w rs st st' res,
    chunk_loop w st rs = (st', res) ->
    forallb (fun x => negb (is_done x)) (printed st) = true ->
    forallb (fun x => negb (is_done x)) (printed st') = true.
Proof.
  intros w. induction rs as [|r rs IH]; intros st st' res H Hst;
    cbn [chunk_loop] in H.
  - now injection H as <- _.
  - destruct (chunk_step w st r) as [st1 [e|]] eqn:E.
    + injection H as <- _. eapply chunk_step_no_done; eassumption.
    + eapply IH; [exact H|]. eapply chunk_step_no_done; eassumption.
Qed.

(** The loop stops at the first round that raises: the rows after it
    play no part. *)
Lemma chunk_loop_stops :
  forall w pre st r post st1 st2 e,
    chunk_loop w st pre = (st1, None) ->
    chunk_step w st1 r = (st2, Some e) ->
    chunk_loop w st (pre ++ r :: post) = (st2, Some e).
Proof.
  intros w. induction pre as [|x pre IH]; intros st r post st1 st2 e Hpre Hr;
    cbn [chunk_loop app] in *.
  - injection Hpre as <-. now rewrite Hr.
  - destruct (chunk_step w st x) as [st' [e'|]] eqn:E; [discriminate|].
    eapply IH; eassumption.
Qed.

(** What a raising round has done: one call to the embedding service,
    no write, no line; the error is the one of [embed_text], or names
    the chunk and the failure of the write. *)
Lemma chunk_step_raises :
  forall w st cid chunk_text st' e,
    chunk_step w st (cid, chunk_text) = (st', Some e) ->
    exists text,
      chunk_text = Some text
      /\ rows st' = rows st /\ db_writes st' = db_writes st
      /\ printed st' = printed st
      /\ embed_calls st' = embed_calls st ++ [text]
      /\ (embed_text (client_at w (length (embed_calls st))) text = Raise e
          \/ exists vec msg,
               embed_text (client_at w (length (embed_calls st))) text = Ok vec
               /\ update_error_at w (length (db_writes st)) cid vec = Some msg
               /\ e = DbUpdateFailed cid msg).
Proof.
  intros w st cid [text|] st' e H; unfold chunk_step in H; [|discriminate].
  exists text. split; [reflexivity|].
  destruct (blank (Some text)); [discriminate|].
  destruct (embed_text _ text) as [vec|e'] eqn:Ee.
  - destruct (update_error_at w _ cid vec) as [msg|] eqn:Eu; [|discriminate].
    injection H as <- <-. cbn. repeat split. right. now exists vec, msg.
  - injection H as <- <-. cbn. repeat split. now left.
Qed.

Lemma fetch_nothing :
  forall w t limit,
    Forall (fun r => lacks_embedding r = false) t ->
    fetch_error w = None -> 0 <= limit ->
    fetch_chunks_without_embedding w t limit = Ok [].
Proof.
  intros w t limit Hall Hf Hl. unfold fetch_chunks_without_embedding.
  rewrite Hf. destruct (limit <? 0) eqn:E; [apply Z.ltb_lt in E; lia|].
  assert (Hnil : filter lacks_embedding t = []).
  { induction Hall as [|r t Hr _ IH]; [reflexivity|].
    cbn [filter]. now rewrite Hr. }
  rewrite Hnil. now rewrite firstn_nil.
Qed.

(** On a table where every chunk has an embedding, [main] asks nothing
    of the embedding service and writes nothing, whatever else happens. *)
Lemma main_all_embedded_effects :
  forall w t,
    Forall (fun r => lacks_embedding r = false) t ->
    calls (main w t) = [] /\ writes (main w t) = []
    /\ table_after (main w t) = t.
Proof.
  intros w t Hall. unfold main.
  destruct (key_set w); cbn [negb]; [|now repeat split].
  destruct (fetch_error w) as [msg|] eqn:Ef.
  - unfold fetch_chunks_without_embedding. rewrite Ef. now repeat split.
  - rewrite (fetch_nothing w t 50 Hall Ef) by lia. now repeat split.
Qed.

(** *** A completed run leaves nothing for the next one *)

Lemma skips_app : forall a b, skips (a ++ b) = skips a + skips b.
Proof.
  intros a b. unfold skips, len. rewrite filter_app, length_app. lia.
Qed.

Lemma skips_nonneg : forall a, 0 <= skips a.
Proof. intros a. unfold skips, len. lia. Qed.

Lemma embed_text_nonempty :
  forall c text vec, embed_text c text = Ok vec -> vec <> [].
Proof.
  intros c text vec H. apply EmbedFacts.embed_text_ok_iff in H.
  destruct H as [items [_ [Hne Hall]]]. intros ->.
  inversion Hall; subst. contradiction.
Qed.

Lemma set_embedding_in :
  forall cid vec t r',
    In r' (set_embedding cid vec t) ->
    exists r,
      In r t /\ id r' = id r
      /\ ((id r = cid /\ embedding r' = Some (PyList (map PyFloat vec)))
          \/ (id r <> cid /\ r' = r)).
Proof.
  intros cid vec t r' H. unfold set_embedding in H.
  apply in_map_iff in H. destruct H as [r [Hr Hin]].
  exists r. split; [exact Hin|].
  destruct (id r =? cid) eqn:E.
  - apply Z.eqb_eq in E. subst r'. cbn. split; [reflexivity|]. now left.
  - apply Z.eqb_neq in E. subst r'. split; [reflexivity|]. now right.
Qed.

(** A round that does not raise either skips the chunk or stores a
    non-empty embedding for it. *)
Lemma chunk_step_done :
  forall w st cid chunk_text st',
    chunk_step w st (cid, chunk_text) = (st', None) ->
    (printed st' = printed st ++ [SkippedChunk cid] /\ rows st' = rows st)
    \/ exists vec,
         vec <> []
         /\ printed st' = printed st ++ [UpdatedChunk cid (len vec)]
         /\ rows st' = set_embedding cid vec (rows st).
Proof.
  intros w st cid [text|] st' H; unfold chunk_step in H.
  - destruct (blank (Some text)).
    + injection H as <-. left. now split.
    + destruct (embed_text _ text) as [vec|e] eqn:Ee; [|discriminate].
      destruct (update_error_at w _ cid vec); [discriminate|].
      injection H as <-. right. exists vec.
      split; [now apply embed_text_nonempty in Ee | now split].
  - injection H as <-. left. now split.
Qed.

Lemma chunk_loop_skips_mono :
  forall w rs st st',
    chunk_loop w st rs = (st', None) ->
    skips (printed st) <= skips (printed st').
Proof.
  intros w. induction rs as [|[cid text] rs IH]; intros st st' H;
    cbn [chunk_loop] in H.
  - injection H as <-. lia.
  - destruct (chunk_step w st (cid, text)) as [st1 [e|]] eqn:E;
      [discriminate|].
    apply IH in H.
    destruct (chunk_step_done _ _ _ _ _ E) as [[Hp _]|[vec [_ [Hp _]]]];
      rewrite Hp, skips_app in H; pose proof (skips_nonneg (printed st));
      cbn in H; cbn; lia.
Qed.

(** After a loop that raised nothing and skipped nothing, a row still
    without embedding is none of the rows processed, and was without
    embedding before. *)
Lemma chunk_loop_embeds :
  forall w rs st st',
    chunk_loop w st rs = (st', None) ->
    skips (printed st') = skips (printed st) ->
    forall r',
      In r' (rows st') -> lacks_embedding r' = true ->
      ~ In (id r') (map fst rs)
      /\ exists r, In r (rows st) /\ id r = id r' /\ lacks_embedding r = true.
Proof.
  intros w. induction rs as [|[cid text] rs IH]; intros st st' H Hs r' Hin Hl;
    cbn [chunk_loop] in H.
  - injection H as <-. split; [now intros []|]. now exists r'.
  - destruct (chunk_step w st (cid, text)) as [st1 [e|]] eqn:E;
      [discriminate|].
    pose proof (chunk_loop_skips_mono _ _ _ _ H) as Hmono.
    destruct (chunk_step_done _ _ _ _ _ E) as [[Hp _]|[vec [Hne [Hp Hrows]]]].
    + rewrite Hp, skips_app in Hmono. cbn in Hmono. lia.
    + assert (Hs1 : skips (printed st') = skips (printed st1)).
      { rewrite Hp, skips_app. cbn. lia. }
      destruct (IH st1 st' H Hs1 r' Hin Hl) as [Hnot [r1 [Hin1 [Hid1 Hl1]]]].
      rewrite Hrows in Hin1. apply set_embedding_in in Hin1.
      destruct Hin1 as [r [Hr [Hid [[Hc Hemb]|[Hc ->]]]]].
      * exfalso. unfold lacks_embedding in Hl1. rewrite Hemb in Hl1.
        destruct vec; [contradiction | discriminate].
      * split; [|now exists r].
        cbn [map fst]. intros [Heq|Hrest]; [congruence | contradiction].
Qed.

(** A run that returns 0 without skipping a chunk, on a table with at
    most 50 chunks to embed, leaves every chunk with an embedding; the
    run that follows does nothing. *)
Lemma main_completes :
  forall w t,
    exit_code (main w t) = 0 -> skips (output (main w t)) = 0 ->
    (length (filter lacks_embedding t) <= 50)%nat ->
    Forall (fun r => lacks_embedding r = false) (table_after (main w t)).
Proof.
  intros w t Hexit Hskip Hfew. unfold main in *.
  destruct (key_set w); cbn [negb] in *; [|discriminate].
  unfold fetch_chunks_without_embedding in *.
  destruct (fetch_error w); [discriminate|].
  change (50 <? 0) with false in *. cbv iota in *.
  rewrite firstn_all2 in * by exact Hfew.
  set (rs := map (fun r => (id r, chunk_text r)) (filter lacks_embedding t))
    in *.
  assert (Hcover : forall r, In r t -> lacks_embedding r = true ->
                     In (id r) (map fst rs)).
  { intros r Hr Hl. unfold rs. rewrite map_map. cbn [fst].
    apply in_map. apply filter_In. now split. }
  apply Forall_forall. intros r' Hin.
  destruct (lacks_embedding r') eqn:Hl; [exfalso | reflexivity].
  destruct (truthy rs) eqn:Hrs; cbn [negb] in *.
  - destruct (chunk_loop w (start t (len rs)) rs) as [st [e|]] eqn:Hloop;
      [discriminate|].
    cbn [leave table_after output] in *.
    rewrite skips_app in Hskip. cbn in Hskip.
    destruct (chunk_loop_embeds _ _ _ _ Hloop) with (r' := r')
      as [Hnot [r [Hr [Hid Hlr]]]]; try assumption.
    + cbn. pose proof (skips_nonneg (printed st)). unfold skips in *. lia.
    + apply Hnot. rewrite <- Hid. now apply Hcover.
  - cbn [leave table_after] in Hin. cbn [rows] in Hin.
    apply StripFacts.truthy_false in Hrs.
    pose proof (Hcover r' Hin Hl) as Hc. rewrite Hrs in Hc. exact Hc.
Qed.

Lemma second_run_noop :
  forall w1 w2 t,
    exit_code (main w1 t) = 0 -> skips (output (main w1 t)) = 0 ->
    (length (filter lacks_embedding t) <= 50)%nat ->
    calls (main w2 (table_after (main w1 t))) = []
    /\ writes (main w2 (table_after (main w1 t))) = []
    /\ table_after (main w2 (table_after (main w1 t)))
       = table_after (main w1 t).
Proof.
  intros w1 w2 t Hexit Hskip Hfew.
  now apply main_all_embedded_effects, main_completes.
Qed.

End BackfillFacts.

(** C4 (as amended): when, after the rows [pre], the round for the row
    [r] raises [e] (the embedding fails, or the write fails after a
    successful embedding), [main] stops there: it prints the error after
    the lines of the rounds before and returns 1, the rows after [r]
    playing no part; the failing round has written and printed nothing;
    a failed write is reported with the chunk id and the text of the
    failure.  The run prints no "Done." line: the two totals are not
    reported. *)
Theorem main_stops_at_first_failure :
  forall w t pre r post st st' e,
    Embedder.key_set w = true ->
    Embedder.fetch_chunks_without_embedding w t 50
    = Env.Ok (pre ++ r :: post) ->
    Embedder.chunk_loop w (Embedder.start t (len (pre ++ r :: post))) pre
    = (st, None) ->
    Embedder.chunk_step w st r = (st', Some e) ->
    Embedder.main w t = Embedder.leave 1 st' [Embedder.Error e]
    /\ Embedder.reported_totals (Embedder.main w t) = None
    /\ Embedder.rows st' = Embedder.rows st
    /\ Embedder.db_writes st' = Embedder.db_writes st
    /\ Embedder.printed st' = Embedder.printed st
    /\ exists text,
         snd r = Some text
         /\ Embedder.embed_calls st' = Embedder.embed_calls st ++ [text]
         /\ (Embedder.embed_text
               (Embedder.client_at w (length (Embedder.embed_calls st))) text
             = Env.Raise e
             \/ exists vec msg,
                  Embedder.embed_text
                    (Embedder.client_at w (length (Embedder.embed_calls st)))
                    text = Env.Ok vec
                  /\ Embedder.update_error_at w
                       (length (Embedder.db_writes st)) (fst r) vec = Some msg
                  /\ e = Env.DbUpdateFailed (fst r) msg).
Proof.
  intros w t pre [cid chunk_text] post st st' e Hkey Hfetch Hpre Hstep.
  assert (Hmain : Embedder.main w t = Embedder.leave 1 st' [Embedder.Error e]).
  { unfold Embedder.main. rewrite Hkey, Hfetch. cbn [negb].
    assert (Hne : truthy (pre ++ (cid, chunk_text) :: post) = true)
      by now destruct pre.
    rewrite Hne. cbn [negb].
    now rewrite (BackfillFacts.chunk_loop_stops _ _ _ _ post _ _ _ Hpre Hstep). }
  destruct (BackfillFacts.chunk_step_raises _ _ _ _ _ _ Hstep)
    as [text [Ht [Hrows [Hwrites [Hprinted [Hcalls Herr]]]]]].
  split; [exact Hmain|]. split.
  - rewrite Hmain. apply BackfillFacts.totals_none.
    rewrite forallb_app. apply andb_true_iff. split; [|reflexivity].
    rewrite Hprinted.
    eapply BackfillFacts.chunk_loop_no_done; [exact Hpre | reflexivity].
  - repeat (split; [assumption|]). exists text. cbn [fst snd].
    repeat (split; [assumption|]). exact Herr.
Qed.

(** C4 on [Examples.two_pending]: the first chunk is embedded, the call
    for the second is refused. *)
Lemma main_stops_at_first_failure_witness :
  Embedder.main Examples.second_call_fails Examples.two_pending
  = Embedder.leave 1 Examples.second_asked
      [Embedder.Error (Env.EmbedContentFailed (of_string "quota exceeded"))]
  /\ Embedder.reported_totals
       (Embedder.main Examples.second_call_fails Examples.two_pending) = None.
Proof.
  destruct (main_stops_at_first_failure Examples.second_call_fails
              Examples.two_pending
              [(1, Some (of_string "alpha"))] (2, Some (of_string "beta")) []
              Examples.first_done Examples.second_asked
              (Env.EmbedContentFailed (of_string "quota exceeded")))
    as [Hmain [Htotals _]]; try (vm_compute; reflexivity).
  split; [exact Hmain | exact Htotals].
Defined.

(** C4 (counterexample): the first chunk is updated, the embedding of
    the second fails; the run prints the error and returns 1, and the
    totals (1 updated, 0 skipped) appear nowhere in what it returns or
    prints. *)
Lemma main_failure_reports_no_totals :
  Embedder.main Examples.second_call_fails Examples.two_pending
  = {| Embedder.exit_code := 1;
       Embedder.output :=
         [Embedder.KeyLoaded true; Embedder.Found 2;
          Embedder.UpdatedChunk 1 2;
          Embedder.Error (Env.EmbedContentFailed (of_string "quota exceeded"))];
       Embedder.table_after :=
         [Examples.embedded 1 (of_string "alpha") [Examples.one; PyNum.zero];
          Examples.pending 2 (of_string "beta")];
       Embedder.calls := [of_string "alpha"; of_string "beta"];
       Embedder.writes := [(1, [Examples.one; PyNum.zero])] |}
  /\ Embedder.reported_totals
       (Embedder.main Examples.second_call_fails Examples.two_pending) = None.
Proof. split; vm_compute; reflexivity. Qed.

(** C9 (as amended): on a table in which no chunk lacks an embedding,
    [main] makes no call to the embedding service and no write and
    leaves the table as it is.  It prints no line for an updated or a
    skipped chunk and no "Done." line, so that it reports no totals:
    with the key set and the query succeeding it returns 0 at
    [if not rows], right after printing that 0 chunks were found, before
    the counters [updated] and [skipped] exist.  In particular the run
    that follows a completed run (one that returned 0 and skipped no
    chunk, on a table with at most 50 chunks to embed) finds every
    chunk with an embedding and is such a run, whatever the service and
    the database would answer to it. *)
Theorem main_noop_when_all_embedded :
  (forall w t,
     Forall (fun r => Env.lacks_embedding r = false) t ->
     Embedder.calls (Embedder.main w t) = []
     /\ Embedder.writes (Embedder.main w t) = []
     /\ Embedder.table_after (Embedder.main w t) = t
     /\ Embedder.reported_totals (Embedder.main w t) = None
     /\ Embedder.updated_lines (Embedder.main w t) = 0
     /\ Embedder.skipped_lines (Embedder.main w t) = 0
     /\ (Embedder.key_set w = true -> Embedder.fetch_error w = None ->
         Embedder.exit_code (Embedder.main w t) = 0
         /\ Embedder.output (Embedder.main w t)
            = [Embedder.KeyLoaded true; Embedder.Found 0]))
  /\ (forall w1 w2 t,
        Embedder.exit_code (Embedder.main w1 t) = 0 ->
        Embedder.skipped_lines (Embedder.main w1 t) = 0 ->
        (length (filter Env.lacks_embedding t) <= 50)%nat ->
        Forall (fun r => Env.lacks_embedding r = false)
          (Embedder.table_after (Embedder.main w1 t))
        /\ Embedder.calls
             (Embedder.main w2 (Embedder.table_after (Embedder.main w1 t))) = []
        /\ Embedder.writes
             (Embedder.main w2 (Embedder.table_after (Embedder.main w1 t))) = []
        /\ Embedder.table_after
             (Embedder.main w2 (Embedder.table_after (Embedder.main w1 t)))
           = Embedder.table_after (Embedder.main w1 t)
        /\ Embedder.reported_totals
             (Embedder.main w2 (Embedder.table_after (Embedder.main w1 t)))
           = None
        /\ (Embedder.key_set w2 = true -> Embedder.fetch_error w2 = None ->
            Embedder.exit_code
              (Embedder.main w2 (Embedder.table_after (Embedder.main w1 t)))
            = 0
            /\ Embedder.output
                 (Embedder.main w2 (Embedder.table_after (Embedder.main w1 t)))
               = [Embedder.KeyLoaded true; Embedder.Found 0])).
Proof.
  match goal with |- ?A /\ _ => assert (Hfirst : A) end.
  { intros w t Hall. unfold Embedder.main.
    destruct (Embedder.key_set w) eqn:Ek; cbn [negb].
    - destruct (Embedder.fetch_error w) as [msg|] eqn:Ef.
      + unfold Embedder.fetch_chunks_without_embedding. rewrite Ef.
        repeat split; discriminate.
      + rewrite (BackfillFacts.fetch_nothing w t 50 Hall Ef) by lia.
        cbn [truthy negb]. repeat split.
    - repeat split; discriminate. }
  split; [exact Hfirst|].
  intros w1 w2 t Hexit Hskip Hfew.
  pose proof (BackfillFacts.main_completes w1 t Hexit Hskip Hfew) as Hall.
  split; [exact Hall|].
  destruct (Hfirst w2 _ Hall) as [Hc [Hw [Ht [Hr [_ [_ Hout]]]]]].
  repeat (split; [assumption|]). exact Hout.
Qed.

(** C9 on [Examples.all_embedded], and on the run that follows the run
    embedding a table of one chunk. *)
Lemma main_noop_when_all_embedded_witness :
  Embedder.calls
    (Embedder.main Examples.second_call_fails Examples.all_embedded) = []
  /\ Embedder.writes
       (Embedder.main Examples.second_call_fails Examples.all_embedded) = []
  /\ Embedder.exit_code
       (Embedder.main Examples.second_call_fails Examples.all_embedded) = 0
  /\ Embedder.reported_totals
       (Embedder.main Examples.second_call_fails Examples.all_embedded) = None
  /\ Embedder.calls
       (Embedder.main Examples.second_call_fails
          (Embedder.table_after
             (Embedder.main Examples.second_call_fails
                [Examples.pending 1 (of_string "alpha")]))) = []
  /\ Embedder.reported_totals
       (Embedder.main Examples.second_call_fails
          (Embedder.table_after
             (Embedder.main Examples.second_call_fails
                [Examples.pending 1 (of_string "alpha")]))) = None.
Proof.
  destruct main_noop_when_all_embedded as [Hfirst Hsecond].
  destruct (Hfirst Examples.second_call_fails Examples.all_embedded)
    as [Hc [Hw [_ [Hr [_ [_ Hexit]]]]]].
  { repeat constructor. }
  destruct (Hsecond Examples.second_call_fails Examples.second_call_fails
              [Examples.pending 1 (of_string "alpha")])
    as [_ [Hc2 [_ [_ [Hr2 _]]]]].
  { vm_compute. reflexivity. }
  { vm_compute. reflexivity. }
  { cbn. lia. }
  split; [exact Hc|]. split; [exact Hw|].
  split; [now destruct Hexit as [He _]|].
  split; [exact Hr|]. split; [exact Hc2 | exact Hr2].
Defined.

(** C9 (counterexample): every chunk of [Examples.all_embedded] has an
    embedding; the run returns the exit status 0 and prints that the key
    is loaded and that 0 chunks were found, and nothing else: no totals
    [updated = 0], [skipped = 0] appear in what it returns or prints. *)
Lemma main_noop_reports_no_totals :
  Embedder.main Examples.second_call_fails Examples.all_embedded
  = {| Embedder.exit_code := 0;
       Embedder.output := [Embedder.KeyLoaded true; Embedder.Found 0];
       Embedder.table_after := Examples.all_embedded;
       Embedder.calls := [];
       Embedder.writes := [] |}
  /\ Embedder.reported_totals
       (Embedder.main Examples.second_call_fails Examples.all_embedded) = None.
Proof. split; vm_compute; reflexivity. Qed.

(* ================================================================== *)
(** * Part III: further properties of the code                         *)
(* ================================================================== *)

(** ** Characters kept by trimming, splitting and slicing *)
Module NonspaceFacts.
Import IndexDocuments StripFacts.

Lemma nonspace_app : forall a b, nonspace (a ++ b) = nonspace a ++ nonspace b.
Proof. intros a b. apply filter_app. Qed.

Lemma nonspace_cons :
  forall c s,
    nonspace (c :: s) = if isspace c then nonspace s else c :: nonspace s.
Proof. intros c s. unfold nonspace. cbn [filter]. now destruct (isspace c). Qed.

Lemma nonspace_rev : forall s, nonspace (rev s) = rev (nonspace s).
Proof.
  induction s as [|c s IH]; [reflexivity|].
  cbn [rev]. rewrite nonspace_app, IH, !nonspace_cons.
  destruct (isspace c); cbn [rev]; [now rewrite app_nil_r | reflexivity].
Qed.

Lemma nonspace_lstrip : forall s, nonspace (lstrip s) = nonspace s.
Proof.
  induction s as [|c s IH]; [reflexivity|]. cbn [lstrip].
  destruct (isspace c) eqn:E; [|reflexivity].
  now rewrite IH, nonspace_cons, E.
Qed.

(** Trimming removes whitespace only. *)
Lemma nonspace_strip : forall s, nonspace (strip s) = nonspace s.
Proof.
  intros s. unfold strip, rstrip.
  now rewrite nonspace_rev, nonspace_lstrip, nonspace_rev, rev_involutive,
    nonspace_lstrip.
Qed.

Lemma nonspace_nil_iff : forall s, nonspace s = [] <-> forallb isspace s = true.
Proof.
  induction s as [|c s IH]; [simpl; tauto|].
  rewrite nonspace_cons. cbn [forallb].
  destruct (isspace c); cbn [andb]; [exact IH|]. split; discriminate.
Qed.

Lemma strip_nil_nonspace : forall s, strip s = [] <-> nonspace s = [].
Proof.
  intros s. rewrite strip_nil_iff. symmetry. apply nonspace_nil_iff.
Qed.

Lemma nonspace_fixed :
  forall s, forallb (fun c => negb (isspace c)) s = true -> nonspace s = s.
Proof.
  induction s as [|c s IH]; intros H; [reflexivity|].
  cbn [forallb] in H. apply andb_true_iff in H. destruct H as [Hc Hs].
  rewrite nonspace_cons. apply negb_true_iff in Hc. rewrite Hc.
  f_equal. now apply IH.
Qed.

(** [s[i:i+k]] is the first [k] characters from position [i]. *)
Lemma slice_window :
  forall (s : str) i k, 0 <= i -> 0 <= k ->
    slice s i (i + k) = firstn (Z.to_nat k) (skipn (Z.to_nat i) s).
Proof.
  intros s i k Hi Hk. unfold slice, clamp_index.
  destruct (i <? 0) eqn:Ei; [apply Z.ltb_lt in Ei; lia|].
  destruct (i + k <? 0) eqn:Ej; [apply Z.ltb_lt in Ej; lia|].
  unfold len. destruct (Z.le_gt_cases i (Z.of_nat (length s))) as [H|H].
  - rewrite (Z.min_l i) by exact H.
    destruct (Z.le_gt_cases (i + k) (Z.of_nat (length s))) as [H2|H2].
    + rewrite Z.min_l by exact H2. f_equal. lia.
    + rewrite Z.min_r by lia.
      rewrite !firstn_all2; try reflexivity; rewrite length_skipn; lia.
  - rewrite !Z.min_r by lia.
    rewrite !skipn_all2 by lia. now rewrite !firstn_nil.
Qed.

Lemma skipn_plus :
  forall (A : Type) (a b : nat) (l : list A),
    skipn (a + b) l = skipn b (skipn a l).
Proof.
  intros A. induction a as [|a IH]; intros b l; [reflexivity|].
  destruct l as [|x l]; simpl; [now rewrite skipn_nil | apply IH].
Qed.

(** [s.split()]: the words hold the non-whitespace characters of [s],
    and nothing else. *)
Lemma split_from_concat :
  forall s word, concat (split_from s word) = rev word ++ nonspace s.
Proof.
  induction s as [|c s IH]; intros word.
  - simpl. destruct word; simpl; [reflexivity | now rewrite !app_nil_r].
  - cbn [split_from]. rewrite nonspace_cons.
    destruct (isspace c).
    + destruct (truthy word) eqn:Ew.
      * cbn [concat]. rewrite IH. reflexivity.
      * apply truthy_false in Ew. subst word. apply IH.
    + rewrite IH. simpl rev. now rewrite <- app_assoc.
Qed.

Lemma split_from_words :
  forall s word,
    forallb (fun c => negb (isspace c)) word = true ->
    Forall (fun w => w <> [] /\ forallb (fun c => negb (isspace c)) w = true)
      (split_from s word).
Proof.
  induction s as [|c s IH]; intros word Hw.
  - simpl. destruct (truthy word) eqn:E; constructor; [|constructor].
    split; [intros H; apply (f_equal (@rev char)) in H;
            rewrite rev_involutive in H; subst; discriminate|].
    now rewrite forallb_rev.
  - cbn [split_from]. destruct (isspace c) eqn:Ec.
    + destruct (truthy word) eqn:E; [|now apply IH].
      constructor; [|now apply IH].
      split; [intros H; apply (f_equal (@rev char)) in H;
              rewrite rev_involutive in H; subst; discriminate|].
      now rewrite forallb_rev.
    + apply IH. simpl. now rewrite Ec, Hw.
Qed.

(** Joining with a whitespace separator adds whitespace only. *)
Lemma nonspace_join :
  forall sep parts, forallb isspace sep = true ->
    nonspace (join sep parts) = concat (map nonspace parts).
Proof.
  intros sep parts Hsep. apply nonspace_nil_iff in Hsep.
  induction parts as [|p parts IH]; [reflexivity|].
  destruct parts as [|q parts].
  - simpl. now rewrite app_nil_r.
  - change (join sep (p :: q :: parts)) with (p ++ sep ++ join sep (q :: parts)).
    rewrite !nonspace_app, Hsep, IH. reflexivity.
Qed.

Lemma nonspace_clean : forall text, nonspace (clean text) = nonspace text.
Proof.
  intros text. unfold clean. rewrite nonspace_join by reflexivity.
  pose proof (split_from_words text [] eq_refl) as Hw.
  pose proof (split_from_concat text []) as Hc. simpl in Hc.
  unfold split. rewrite <- Hc. f_equal.
  revert Hw. generalize (split_from text []). intros ws Hw.
  induction Hw as [|w ws [_ Hw] _ IH]; [reflexivity|].
  cbn [map]. now rewrite (nonspace_fixed w Hw), IH.
Qed.

Lemma clean_nil_iff : forall text, clean text = [] <-> nonspace text = [].
Proof.
  intros text. split.
  - intros H. rewrite <- nonspace_clean, H. reflexivity.
  - intros H. unfold clean, split.
    pose proof (split_from_words text [] eq_refl) as Hw.
    pose proof (split_from_concat text []) as Hc. simpl in Hc.
    rewrite H in Hc. destruct (split_from text []) as [|w ws]; [reflexivity|].
    inversion Hw as [|? ? [Hne _] _]; subst.
    simpl in Hc. apply app_eq_nil in Hc. destruct Hc. contradiction.
Qed.

(** The sentence pattern only removes whitespace. *)
Lemma re_split_from_concat :
  forall s after_end in_gap piece,
    concat (map nonspace (re_split_from s after_end in_gap piece))
    = nonspace (rev piece) ++ nonspace s.
Proof.
  induction s as [|c s IH]; intros ae gap piece.
  - simpl. now rewrite !app_nil_r.
  - cbn [re_split_from].
    assert (Hc : nonspace (rev (c :: piece)) ++ nonspace s
                 = nonspace (rev piece) ++ nonspace (c :: s)).
    { cbn [rev]. rewrite nonspace_app, <- app_assoc.
      change (c :: s) with ([c] ++ s). now rewrite (nonspace_app [c] s). }
    destruct gap.
    + destruct (isspace c) eqn:Ec.
      * rewrite IH, (nonspace_cons c s), Ec. reflexivity.
      * now rewrite IH.
    + destruct (ae && isspace c) eqn:E.
      * apply andb_true_iff in E. destruct E as [_ Ec].
        cbn [map concat]. rewrite IH, (nonspace_cons c s), Ec. reflexivity.
      * now rewrite IH.
Qed.

End NonspaceFacts.

(** ** Fixed-size chunking: what comes out *)
Module FixedSizeMore.
Import IndexDocuments StripFacts NonspaceFacts.

(** With a positive window that advances, the loop leaves, with good
    chunks only. *)
Lemma chunk_fixed_size_loop_ok :
  forall text chunk_size overlap,
    0 < chunk_size -> overlap < chunk_size ->
    forall n start chunks,
      0 <= start -> len text - start <= Z.of_nat n ->
      Forall (chunk_ok chunk_size) chunks ->
      exists r,
        chunk_fixed_size_loop (S n) text chunk_size overlap start chunks
        = Some r
        /\ Forall (chunk_ok chunk_size) r.
Proof.
  intros text cs ov Hcs Hov.
  induction n as [|n IH]; intros start chunks Hs Hn Hck.
  - simpl. destruct (start <? len text) eqn:E; [apply Z.ltb_lt in E; lia|].
    now exists chunks.
  - cbn [chunk_fixed_size_loop].
    destruct (start <? len text) eqn:E; [|now exists chunks].
    destruct (start + cs - ov <? 0) eqn:E2; [apply Z.ltb_lt in E2; lia|].
    apply IH; try lia.
    destruct (truthy (strip (slice text start (start + cs)))) eqn:Et;
      [|exact Hck].
    apply Forall_app. split; [exact Hck|].
    constructor; [|constructor]. now apply SentenceFacts.part_ok.
Qed.

(** Without overlap the windows cut the text into consecutive pieces:
    the chunks hold its non-whitespace characters, all of them, once and
    in order. *)
Lemma chunk_fixed_size_loop_content :
  forall text chunk_size, 0 < chunk_size ->
    forall n start chunks,
      0 <= start -> len text - start <= Z.of_nat n ->
      exists r,
        chunk_fixed_size_loop (S n) text chunk_size 0 start chunks = Some r
        /\ nonspace (concat r)
           = nonspace (concat chunks) ++ nonspace (skipn (Z.to_nat start) text).
Proof.
  intros text cs Hcs.
  induction n as [|n IH]; intros start chunks Hs Hn.
  - simpl. destruct (start <? len text) eqn:E; [apply Z.ltb_lt in E; lia|].
    exists chunks. split; [reflexivity|].
    rewrite skipn_all2 by (unfold len in Hn; lia). now rewrite app_nil_r.
  - cbn [chunk_fixed_size_loop].
    destruct (start <? len text) eqn:E.
    2:{ exists chunks. split; [reflexivity|]. apply Z.ltb_ge in E.
        rewrite skipn_all2 by (unfold len in E; lia). now rewrite app_nil_r. }
    destruct (start + cs - 0 <? 0) eqn:E2; [apply Z.ltb_lt in E2; lia|].
    set (window := slice text start (start + cs)).
    destruct (IH (start + cs - 0)
                (if truthy (strip window) then chunks ++ [strip window]
                 else chunks)) as [r [Hr Hc]]; try lia.
    exists r. split; [exact Hr|]. rewrite Hc.
    assert (Hw : nonspace (concat (if truthy (strip window)
                                   then chunks ++ [strip window] else chunks))
                 = nonspace (concat chunks) ++ nonspace window).
    { destruct (truthy (strip window)) eqn:Et.
      - rewrite concat_app, nonspace_app. cbn [concat].
        now rewrite app_nil_r, nonspace_strip.
      - apply truthy_false, strip_nil_nonspace in Et.
        now rewrite Et, app_nil_r. }
    apply (f_equal (fun l => l ++ nonspace (skipn (Z.to_nat (start + cs - 0))
                                               text))) in Hw.
    etransitivity; [exact Hw|]. rewrite <- app_assoc. f_equal.
    unfold window. rewrite slice_window by lia.
    replace (Z.to_nat (start + cs - 0))
      with (Z.to_nat start + Z.to_nat cs)%nat by lia.
    rewrite skipn_plus, <- nonspace_app. now rewrite firstn_skipn.
Qed.

End FixedSizeMore.

(** X1: for [chunk_size > 0] and [overlap < chunk_size],
    [chunk_fixed_size] returns (from some number of rounds on, always
    the same list), and every chunk is trimmed, not empty and at most
    [chunk_size] characters long. *)
Theorem chunk_fixed_size_good_chunks :
  forall text chunk_size overlap,
    0 < chunk_size -> overlap < chunk_size ->
    exists fuel chunks,
      (forall fuel', (fuel <= fuel')%nat ->
         IndexDocuments.chunk_fixed_size fuel' text chunk_size overlap
         = Some chunks)
      /\ Forall (IndexDocuments.chunk_ok chunk_size) chunks.
Proof.
  intros text cs ov Hcs Hov.
  destruct (FixedSizeMore.chunk_fixed_size_loop_ok text cs ov Hcs Hov
              (Z.to_nat (len text)) 0 []) as [r [Hr Hok]];
    [lia | unfold len; lia | constructor |].
  exists (S (Z.to_nat (len text))), r. split; [|exact Hok].
  intros fuel' Hle. unfold IndexDocuments.chunk_fixed_size.
  eapply FixedSizeFacts.chunk_fixed_size_loop_fuel_mono; eassumption.
Qed.

(** X1 with the default parameters of the code, 300 and 50. *)
Lemma chunk_fixed_size_good_chunks_witness :
  exists fuel chunks,
    (forall fuel', (fuel <= fuel')%nat ->
       IndexDocuments.chunk_fixed_size fuel' (of_string "one two  three") 300 50
       = Some chunks)
    /\ Forall (IndexDocuments.chunk_ok 300) chunks.
Proof.
  apply (chunk_fixed_size_good_chunks (of_string "one two  three") 300 50); lia.
Defined.

(** X2: with [overlap = 0] and [chunk_size > 0] no character other than
    whitespace is lost, repeated or moved: the chunks, one after the
    other, hold the non-whitespace characters of the text in order. *)
Theorem chunk_fixed_size_keeps_text :
  forall text chunk_size, 0 < chunk_size ->
    exists fuel chunks,
      IndexDocuments.chunk_fixed_size fuel text chunk_size 0 = Some chunks
      /\ nonspace (concat chunks) = nonspace text.
Proof.
  intros text cs Hcs.
  destruct (FixedSizeMore.chunk_fixed_size_loop_content text cs Hcs
              (Z.to_nat (len text)) 0 []) as [r [Hr Hc]];
    [lia | unfold len; lia |].
  exists (S (Z.to_nat (len text))), r. split; [exact Hr|]. exact Hc.
Qed.

Lemma chunk_fixed_size_keeps_text_witness :
  exists fuel chunks,
    IndexDocuments.chunk_fixed_size fuel (of_string "ab cd  ef") 4 0
    = Some chunks
    /\ nonspace (concat chunks) = nonspace (of_string "ab cd  ef").
Proof. apply (chunk_fixed_size_keeps_text (of_string "ab cd  ef") 4). lia. Defined.

(** ** Sentence-aware chunking: edges and content *)
Module SentenceMore.
Import IndexDocuments StripFacts NonspaceFacts.

Lemma clean_blank :
  forall text, forallb isspace text = true -> clean text = [].
Proof.
  intros text H. apply clean_nil_iff. now apply nonspace_nil_iff.
Qed.

Lemma concat_nonempty :
  forall (l : list str), concat l <> [] -> exists x, In x l /\ x <> [].
Proof.
  induction l as [|x l IH]; intros H; [now elim H|].
  destruct x as [|c x].
  - destruct (IH H) as [y [Hin Hy]]. exists y. split; [now right | exact Hy].
  - exists (c :: x). split; [now left | discriminate].
Qed.

(** A text with a visible character has a sentence with one. *)
Lemma some_sentence :
  forall text, forallb isspace text = false ->
    exists s, In s (re_split_sentences (clean text)) /\ strip s <> [].
Proof.
  intros text H. unfold re_split_sentences.
  pose proof (re_split_from_concat (clean text) false false []) as Hc.
  cbn [rev] in Hc. change (nonspace []) with (@nil char) in Hc.
  cbn [app] in Hc. rewrite nonspace_clean in Hc.
  destruct (concat_nonempty
              (map nonspace (re_split_from (clean text) false false [])))
    as [x [Hin Hx]].
  { rewrite Hc. intros Hn. apply nonspace_nil_iff in Hn. congruence. }
  apply in_map_iff in Hin. destruct Hin as [s [<- Hs]].
  exists s. split; [exact Hs|]. intros Hn. apply Hx.
  now apply strip_nil_nonspace.
Qed.

(** With a negative [max_chars] every sentence counts as oversized and
    is cut into no slice at all. *)
Lemma sentence_loop_negative :
  forall max_chars, max_chars < 0 ->
    forall sentences chunks,
      sentence_loop max_chars (chunks, []) sentences = Some (chunks, []).
Proof.
  intros m Hm. induction sentences as [|s rest IH]; intros chunks;
    [reflexivity|].
  cbn [sentence_loop].
  assert (Hstep : sentence_step m (chunks, []) s = Some (chunks, [])).
  { unfold sentence_step.
    destruct (truthy (strip s)) eqn:Et; cbn [negb]; [|reflexivity].
    assert (Hlen : 0 < len (strip s)).
    { destruct (strip s); [discriminate | unfold len; simpl; lia]. }
    destruct (m <? len (strip s)) eqn:El; [|apply Z.ltb_ge in El; lia].
    cbn [truthy]. unfold force_split, range0.
    destruct (m =? 0) eqn:E0; [apply Z.eqb_eq in E0; lia|].
    destruct (m <? 0) eqn:En; [|apply Z.ltb_ge in En; lia].
    assert (Hq : (- len (strip s) - m - 1) / (- m) < 1)
      by (apply Z.div_lt_upper_bound; lia).
    replace (Z.to_nat ((- len (strip s) - m - 1) / - m)) with 0%nat by lia.
    reflexivity. }
  rewrite Hstep. apply IH.
Qed.

(** With [max_chars = 0] the first sentence that is not empty raises. *)
Lemma sentence_loop_zero :
  forall sentences st,
    (exists s, In s sentences /\ strip s <> []) ->
    sentence_loop 0 st sentences = None.
Proof.
  induction sentences as [|s rest IH]; intros [chunks current] [x [Hin Hx]];
    [contradiction|].
  cbn [sentence_loop]. unfold sentence_step.
  destruct (truthy (strip s)) eqn:Et; cbn [negb].
  - assert (Hlen : (0 <? len (strip s)) = true).
    { apply Z.ltb_lt. destruct (strip s); [discriminate|].
      unfold len. simpl. lia. }
    rewrite Hlen. destruct (truthy current); reflexivity.
  - apply IH. exists x. split; [|exact Hx].
    destruct Hin as [<-|Hin]; [|exact Hin].
    apply truthy_false in Et. contradiction.
Qed.

Lemma firstn_plus :
  forall (A : Type) (a b : nat) (l : list A),
    firstn (a + b) l = firstn a l ++ firstn b (skipn a l).
Proof.
  intros A. induction a as [|a IH]; intros b l; [reflexivity|].
  destruct l as [|x l]; simpl; [now rewrite firstn_nil | now rewrite IH].
Qed.

Section Content.
Variable max_chars : Z.
Hypothesis max_pos : 0 < max_chars.

Let add_part (s : str) :=
  fun (chunks : list str) (i : Z) =>
    let part := strip (slice s i (i + max_chars)) in
    if truthy part then chunks ++ [part] else chunks.

Lemma add_part_content :
  forall s chunks i, 0 <= i ->
    nonspace (concat (add_part s chunks i))
    = nonspace (concat chunks)
      ++ nonspace (firstn (Z.to_nat max_chars) (skipn (Z.to_nat i) s)).
Proof.
  intros s chunks i Hi. unfold add_part.
  rewrite slice_window by lia.
  set (w := firstn (Z.to_nat max_chars) (skipn (Z.to_nat i) s)).
  destruct (truthy (strip w)) eqn:Et.
  - rewrite concat_app, nonspace_app. cbn [concat].
    now rewrite app_nil_r, nonspace_strip.
  - apply truthy_false, strip_nil_nonspace in Et.
    etransitivity; [|apply (f_equal (app (nonspace (concat chunks))));
                      symmetry; exact Et].
    now rewrite app_nil_r.
Qed.

(** The slices taken at [a * max_chars], [(a+1) * max_chars], ... are
    consecutive pieces of the sentence. *)
Lemma fold_parts_content :
  forall s n a chunks,
    nonspace
      (concat (fold_left (add_part s)
                 (map (fun k => Z.of_nat k * max_chars) (seq a n)) chunks))
    = nonspace (concat chunks)
      ++ nonspace (firstn (n * Z.to_nat max_chars)
                     (skipn (a * Z.to_nat max_chars) s)).
Proof.
  intros s. induction n as [|n IH]; intros a chunks.
  - simpl. now rewrite app_nil_r.
  - cbn [seq map fold_left]. rewrite IH, add_part_content by lia.
    rewrite <- app_assoc. f_equal.
    replace (Z.to_nat (Z.of_nat a * max_chars))
      with (a * Z.to_nat max_chars)%nat by lia.
    replace (S a * Z.to_nat max_chars)%nat
      with (a * Z.to_nat max_chars + Z.to_nat max_chars)%nat by lia.
    replace (S n * Z.to_nat max_chars)%nat
      with (Z.to_nat max_chars + n * Z.to_nat max_chars)%nat by lia.
    now rewrite skipn_plus, firstn_plus, nonspace_app.
Qed.

(** Force-splitting keeps every visible character of the sentence. *)
Lemma force_split_content :
  forall s chunks,
    exists chunks',
      force_split s max_chars chunks = Some chunks'
      /\ nonspace (concat chunks') = nonspace (concat chunks) ++ nonspace s.
Proof.
  intros s chunks. unfold force_split, range0.
  destruct (max_chars =? 0) eqn:E0; [apply Z.eqb_eq in E0; lia|].
  destruct (max_chars <? 0) eqn:En; [apply Z.ltb_lt in En; lia|].
  eexists. split; [reflexivity|].
  fold (add_part s). rewrite fold_parts_content. f_equal.
  cbn [Nat.mul skipn]. rewrite firstn_all2; [reflexivity|].
  pose proof (Z.mul_succ_div_gt (len s + max_chars - 1) max_chars max_pos)
    as Hq.
  assert (0 <= (len s + max_chars - 1) / max_chars)
    by (apply Z.div_pos; unfold len; lia).
  unfold len in *. nia.
Qed.

Lemma sentence_step_content :
  forall chunks current s,
    exists chunks' current',
      sentence_step max_chars (chunks, current) s = Some (chunks', current')
      /\ nonspace (concat chunks') ++ nonspace current'
         = (nonspace (concat chunks) ++ nonspace current) ++ nonspace s.
Proof.
  intros chunks current s. unfold sentence_step.
  assert (Hflush : forall c : str,
            nonspace (concat (chunks ++ [strip c]))
            = nonspace (concat chunks) ++ nonspace c).
  { intros c. rewrite concat_app, nonspace_app. cbn [concat].
    now rewrite app_nil_r, nonspace_strip. }
  destruct (truthy (strip s)) eqn:Es; cbn [negb].
  2:{ exists chunks, current. split; [reflexivity|].
      apply truthy_false, strip_nil_nonspace in Es.
      rewrite Es. now rewrite app_nil_r. }
  rewrite <- (nonspace_strip s).
  destruct (max_chars <? len (strip s)).
  - destruct (truthy current) eqn:Ec.
    + destruct (force_split_content (strip s) (chunks ++ [strip current]))
        as [chunks' [Hf Hc]].
      rewrite Hf. exists chunks', []. split; [reflexivity|].
      rewrite Hc, Hflush. now rewrite app_nil_r.
    + destruct (force_split_content (strip s) chunks) as [chunks' [Hf Hc]].
      rewrite Hf. exists chunks', current. split; [reflexivity|].
      apply truthy_false in Ec. subst current.
      rewrite Hc. cbn. now rewrite !app_nil_r.
  - destruct (truthy current && (max_chars <? len current + 1 + len (strip s))).
    + exists (chunks ++ [strip current]), (strip s).
      split; [reflexivity|]. now rewrite Hflush.
    + eexists chunks, _. split; [reflexivity|].
      rewrite <- app_assoc. f_equal.
      destruct (truthy current) eqn:Ec.
      * now rewrite nonspace_strip, !nonspace_app.
      * apply truthy_false in Ec. now subst current.
Qed.

Lemma sentence_loop_content :
  forall sentences chunks current,
    exists chunks' current',
      sentence_loop max_chars (chunks, current) sentences
      = Some (chunks', current')
      /\ nonspace (concat chunks') ++ nonspace current'
         = (nonspace (concat chunks) ++ nonspace current)
           ++ concat (map nonspace sentences).
Proof.
  induction sentences as [|s rest IH]; intros chunks current.
  - exists chunks, current. split; [reflexivity|]. cbn. now rewrite app_nil_r.
  - cbn [sentence_loop].
    destruct (sentence_step_content chunks current s) as [c1 [k1 [H1 E1]]].
    rewrite H1. destruct (IH c1 k1) as [c2 [k2 [H2 E2]]].
    exists c2, k2. split; [exact H2|].
    rewrite E2, E1. cbn [map concat]. now rewrite <- !app_assoc.
Qed.

End Content.

End SentenceMore.

(** X3: a text that is empty or all whitespace gives no chunk, whatever
    [max_chars] is (zero and negative values included). *)
Theorem chunk_by_sentences_blank :
  forall text max_chars,
    forallb isspace text = true ->
    IndexDocuments.chunk_by_sentences text max_chars = Some [].
Proof.
  intros text m H. unfold IndexDocuments.chunk_by_sentences.
  now rewrite (SentenceMore.clean_blank text H).
Qed.

Lemma chunk_by_sentences_blank_witness :
  IndexDocuments.chunk_by_sentences [32; 10; 9; 160]%N 0 = Some [].
Proof. apply chunk_by_sentences_blank. reflexivity. Defined.

(** X4: with a negative [max_chars], [chunk_by_sentences] returns the
    empty list for every text: each sentence is taken as oversized and
    [range(0, len(s), max_chars)] is empty, so its text is dropped. *)
Theorem chunk_by_sentences_negative :
  forall text max_chars,
    max_chars < 0 ->
    IndexDocuments.chunk_by_sentences text max_chars = Some [].
Proof.
  intros text m Hm. unfold IndexDocuments.chunk_by_sentences.
  destruct (truthy (IndexDocuments.clean text)); cbn [negb]; [|reflexivity].
  now rewrite SentenceMore.sentence_loop_negative.
Qed.

Lemma chunk_by_sentences_negative_witness :
  IndexDocuments.chunk_by_sentences (of_string "Hi. World is big. X.") (-1)
  = Some [].
Proof. apply chunk_by_sentences_negative. lia. Defined.

(** X5: with [max_chars = 0], [chunk_by_sentences] raises ([ValueError]
    of [range] with step 0) exactly when the text has a character that
    is not whitespace; otherwise it returns the empty list. *)
Theorem chunk_by_sentences_zero :
  forall text,
    IndexDocuments.chunk_by_sentences text 0
    = if forallb isspace text then Some [] else None.
Proof.
  intros text. destruct (forallb isspace text) eqn:H.
  - unfold IndexDocuments.chunk_by_sentences.
    now rewrite (SentenceMore.clean_blank text H).
  - unfold IndexDocuments.chunk_by_sentences.
    destruct (truthy (IndexDocuments.clean text)) eqn:Ec; cbn [negb].
    + rewrite SentenceMore.sentence_loop_zero; [reflexivity|].
      now apply SentenceMore.some_sentence.
    + apply StripFacts.truthy_false, NonspaceFacts.clean_nil_iff,
        NonspaceFacts.nonspace_nil_iff in Ec. congruence.
Qed.

(** X6: for [max_chars > 0], [chunk_by_sentences] loses no character
    other than whitespace: the chunks, one after the other, hold the
    non-whitespace characters of the text, all of them, once and in
    order. *)
Theorem chunk_by_sentences_keeps_text :
  forall text max_chars, 0 < max_chars ->
    exists chunks,
      IndexDocuments.chunk_by_sentences text max_chars = Some chunks
      /\ nonspace (concat chunks) = nonspace text.
Proof.
  intros text m Hm. unfold IndexDocuments.chunk_by_sentences.
  destruct (truthy (IndexDocuments.clean text)) eqn:Ec; cbn [negb].
  - destruct (SentenceMore.sentence_loop_content m Hm
                (IndexDocuments.re_split_sentences (IndexDocuments.clean text))
                [] []) as [chunks [current [Hloop Hc]]].
    match goal with
    | |- context [match ?x with _ => _ end] =>
        replace x with (Some (chunks, current)) by (symmetry; exact Hloop)
    end.
    eexists. split; [reflexivity|].
    unfold IndexDocuments.re_split_sentences in Hc.
    rewrite NonspaceFacts.re_split_from_concat in Hc. cbn in Hc.
    rewrite NonspaceFacts.nonspace_clean in Hc. rewrite <- Hc.
    destruct (truthy current) eqn:Et.
    + rewrite concat_app, NonspaceFacts.nonspace_app. cbn [concat].
      now rewrite app_nil_r, NonspaceFacts.nonspace_strip.
    + apply StripFacts.truthy_false in Et. subst current.
      cbn. now rewrite app_nil_r.
  - exists []. split; [reflexivity|].
    apply StripFacts.truthy_false, NonspaceFacts.clean_nil_iff in Ec.
    now rewrite Ec.
Qed.

Lemma chunk_by_sentences_keeps_text_witness :
  exists chunks,
    IndexDocuments.chunk_by_sentences (of_string "Hi. World is big. X.") 10
    = Some chunks
    /\ nonspace (concat chunks) = nonspace (of_string "Hi. World is big. X.").
Proof.
  apply (chunk_by_sentences_keeps_text (of_string "Hi. World is big. X.") 10).
  lia.
Defined.

(** ** Text extraction *)
Module ExtractFacts.
Import IndexDocuments StripFacts NonspaceFacts.

Lemma fold_append_filter :
  forall (A : Type) (keep : A -> bool) (l acc : list A),
    fold_left (fun parts x => if keep x then parts ++ [x] else parts) l acc
    = acc ++ filter keep l.
Proof.
  intros A keep. induction l as [|x l IH]; intros acc; cbn [fold_left filter].
  - now rewrite app_nil_r.
  - rewrite IH. destruct (keep x); [now rewrite <- app_assoc | reflexivity].
Qed.

Lemma fold_append_map_filter :
  forall (A B : Type) (f : A -> B) (keep : B -> bool) (l : list A) acc,
    fold_left (fun parts x => if keep (f x) then parts ++ [f x] else parts)
      l acc
    = acc ++ filter keep (map f l).
Proof.
  intros A B f keep. induction l as [|x l IH]; intros acc;
    cbn [fold_left filter map].
  - now rewrite app_nil_r.
  - rewrite IH. destruct (keep (f x)); [now rewrite <- app_assoc | reflexivity].
Qed.

(** Leaving out the blank parts loses no visible character. *)
Lemma nonspace_filter_blank :
  forall parts : list str,
    concat (map nonspace (filter (fun t => truthy (strip t)) parts))
    = concat (map nonspace parts).
Proof.
  induction parts as [|t parts IH]; [reflexivity|]. cbn [filter map concat].
  destruct (truthy (strip t)) eqn:E.
  - cbn [map concat]. now rewrite IH.
  - apply truthy_false, strip_nil_nonspace in E. now rewrite E, IH.
Qed.

Lemma trimmed_nil_iff :
  forall s, strip s = [] <-> nonspace (strip s) = [].
Proof.
  intros s. rewrite nonspace_strip. apply strip_nil_nonspace.
Qed.

Lemma concat_nil_iff :
  forall l : list str, concat l = [] <-> Forall (fun x => x = []) l.
Proof.
  induction l as [|x l IH]; cbn [concat].
  - split; [constructor | reflexivity].
  - split.
    + intros H. apply app_eq_nil in H. destruct H as [Hx Hl].
      constructor; [exact Hx | now apply IH].
    + intros H. inversion H; subst. cbn [app]. now apply IH.
Qed.

End ExtractFacts.

(** X7: [extract_text_from_pdf] and [extract_text_from_docx] return a
    trimmed text that holds the non-whitespace characters of the pages
    (of the paragraphs), all of them and in order; the text is empty
    exactly when every page (paragraph) is absent, empty or blank. *)
Theorem extract_text_keeps_text :
  forall parts : list (option str),
    let text_of := fun p : option str =>
                     match p with Some t => t | None => [] end in
    (nonspace (IndexDocuments.extract_text_from_pdf parts)
     = concat (map (fun p => nonspace (text_of p)) parts)
     /\ strip (IndexDocuments.extract_text_from_pdf parts)
        = IndexDocuments.extract_text_from_pdf parts
     /\ (IndexDocuments.extract_text_from_pdf parts = []
         <-> Forall (fun p => forallb isspace (text_of p) = true) parts))
    /\ (nonspace (IndexDocuments.extract_text_from_docx parts)
        = concat (map (fun p => nonspace (text_of p)) parts)
        /\ strip (IndexDocuments.extract_text_from_docx parts)
           = IndexDocuments.extract_text_from_docx parts
        /\ (IndexDocuments.extract_text_from_docx parts = []
            <-> Forall (fun p => forallb isspace (text_of p) = true) parts)).
Proof.
  intros parts text_of.
  assert (Hblank : concat (map (fun p => nonspace (text_of p)) parts) = []
                   <-> Forall (fun p => forallb isspace (text_of p) = true)
                         parts).
  { rewrite ExtractFacts.concat_nil_iff, Forall_map, !Forall_forall.
    split; intros H p Hp; apply NonspaceFacts.nonspace_nil_iff, H, Hp. }
  assert (Hpdf : nonspace (IndexDocuments.extract_text_from_pdf parts)
                 = concat (map (fun p => nonspace (text_of p)) parts)).
  { unfold IndexDocuments.extract_text_from_pdf.
    rewrite NonspaceFacts.nonspace_strip,
      NonspaceFacts.nonspace_join by reflexivity.
    rewrite (ExtractFacts.fold_append_map_filter _ _ text_of
               (fun t => truthy (strip t))).
    cbn [app]. rewrite ExtractFacts.nonspace_filter_blank.
    now rewrite map_map. }
  assert (Hdocx : nonspace (IndexDocuments.extract_text_from_docx parts)
                  = concat (map (fun p => nonspace (text_of p)) parts)).
  { unfold IndexDocuments.extract_text_from_docx.
    rewrite NonspaceFacts.nonspace_strip,
      NonspaceFacts.nonspace_join by reflexivity.
    rewrite (ExtractFacts.fold_append_map_filter _ _
               (fun p => strip (text_of p)) truthy).
    cbn [app].
    assert (Hf : forall l : list str,
               concat (map nonspace (filter truthy (map strip l)))
               = concat (map nonspace l)).
    { induction l as [|t l IH]; [reflexivity|]. cbn [map filter].
      destruct (truthy (strip t)) eqn:E.
      - cbn [map concat]. now rewrite NonspaceFacts.nonspace_strip, IH.
      - apply StripFacts.truthy_false, NonspaceFacts.strip_nil_nonspace in E.
        cbn [concat]. now rewrite E, IH. }
    rewrite <- (map_map text_of strip), Hf. now rewrite map_map. }
  split; (split; [assumption|]); (split; [apply StripFacts.strip_idem|]).
  - unfold IndexDocuments.extract_text_from_pdf at 1.
    rewrite ExtractFacts.trimmed_nil_iff.
    fold (IndexDocuments.extract_text_from_pdf parts). now rewrite Hpdf.
  - unfold IndexDocuments.extract_text_from_docx at 1.
    rewrite ExtractFacts.trimmed_nil_iff.
    fold (IndexDocuments.extract_text_from_docx parts). now rewrite Hdocx.
Qed.

(** ** A written embedding, seen by the two queries *)
Module UpdateFacts.
Import PyNum Env.

Lemma set_embedding_hit :
  forall cid vec t r,
    In r t -> id r = cid ->
    In {| id := id r; chunk_text := chunk_text r;
          embedding := Some (PyList (map PyFloat vec));
          filename := filename r; split_strategy := split_strategy r |}
       (set_embedding cid vec t).
Proof.
  intros cid vec t r Hin Hid. unfold set_embedding.
  apply in_map_iff. exists r. split; [|exact Hin].
  apply Z.eqb_eq in Hid. now rewrite Hid.
Qed.

End UpdateFacts.

(** X8: after a write [update_embedding(chunk_id, vec)] that succeeds,
    [vec] being non-empty and of finite numbers (JSON has no others),
    every chunk with that id is returned by
    [fetch_chunks_with_embeddings], with its text unchanged and an
    embedding of as many numbers as [vec] that the ranking accepts; no
    row with that id is left for [fetch_chunks_without_embedding].
    Nothing is stated of the numbers read back beyond their count: the
    form in which the column keeps a number is not part of this
    development. *)
Theorem update_embedding_then_fetched :
  forall (t : Env.table) chunk_id vec r,
    vec <> [] -> forallb PyNum.is_finite vec = true ->
    In r t -> Env.id r = chunk_id ->
    exists chunks c,
      Search.fetch_chunks_with_embeddings None
        (Env.set_embedding chunk_id vec t) = Env.Ok chunks
      /\ In c chunks
      /\ Search.c_id c = chunk_id
      /\ Search.c_chunk_text c = Env.chunk_text r
      /\ Search.valid_embedding c = true
      /\ length (Search.emb_vec c) = length vec
      /\ Forall (fun r' => Env.id r' = chunk_id ->
                           Env.lacks_embedding r' = false)
           (Env.set_embedding chunk_id vec t).
Proof.
  intros t cid vec r Hne _ Hin Hid.
  pose proof (UpdateFacts.set_embedding_hit cid vec t r Hin Hid) as Hhit.
  set (r' := {| Env.id := Env.id r; Env.chunk_text := Env.chunk_text r;
                Env.embedding := Some (PyNum.PyList (map PyNum.PyFloat vec));
                Env.filename := Env.filename r;
                Env.split_strategy := Env.split_strategy r |}) in *.
  assert (Hl : Env.lacks_embedding r' = false).
  { unfold Env.lacks_embedding, r'. cbn. destruct vec; [contradiction|].
    reflexivity. }
  eexists. exists (Search.chunk_of_row r').
  split; [reflexivity|]. split.
  { apply in_map. apply filter_In. split; [exact Hhit|]. now rewrite Hl. }
  split; [exact Hid|]. split; [reflexivity|].
  unfold Search.valid_embedding, Search.emb_vec. cbn.
  rewrite EmbedFacts.floats_of_floats.
  split; [destruct vec; [contradiction | reflexivity]|].
  split; [reflexivity|].
  apply Forall_forall. intros x Hx Hxid. unfold Env.set_embedding in Hx.
  apply in_map_iff in Hx. destruct Hx as [y [Hy _]].
  destruct (Env.id y =? cid) eqn:E.
  - subst x. unfold Env.lacks_embedding. cbn.
    destruct vec; [contradiction | reflexivity].
  - subst x. apply Z.eqb_neq in E. contradiction.
Qed.

Lemma update_embedding_then_fetched_witness :
  exists chunks c,
    Search.fetch_chunks_with_embeddings None
      (Env.set_embedding 2 [Examples.one; PyNum.zero] Examples.two_pending)
    = Env.Ok chunks
    /\ In c chunks /\ Search.c_id c = 2
    /\ Search.valid_embedding c = true
    /\ length (Search.emb_vec c) = 2%nat.
Proof.
  destruct (update_embedding_then_fetched Examples.two_pending 2
              [Examples.one; PyNum.zero]
              (Examples.pending 2 (of_string "beta")))
    as [chunks [c [H1 [H2 [H3 [_ [H4 [H5 _]]]]]]]].
  - discriminate.
  - reflexivity.
  - right. now left.
  - reflexivity.
  - now exists chunks, c.
Defined.

(** ** The back-fill run, round by round *)
Module RunFacts.
Import Py PyNum Env Embedder.

(** The three outcomes of a round: the chunk is skipped, or embedded
    and written, or the round raises after asking for the embedding. *)
Lemma chunk_step_cases :
  forall w st cid ctext st' res,
    chunk_step w st (cid, ctext) = (st', res) ->
    (blank ctext = true /\ res = None
     /\ st' = {| updated := updated st; skipped := skipped st + 1;
                 printed := printed st ++ [SkippedChunk cid];
                 rows := rows st; embed_calls := embed_calls st;
                 db_writes := db_writes st |})
    \/ (exists text vec,
          ctext = Some text /\ blank ctext = false /\ vec <> []
          /\ res = None
          /\ st' = {| updated := updated st + 1; skipped := skipped st;
                      printed := printed st ++ [UpdatedChunk cid (len vec)];
                      rows := set_embedding cid vec (rows st);
                      embed_calls := embed_calls st ++ [text];
                      db_writes := db_writes st ++ [(cid, vec)] |})
    \/ (exists text e,
          ctext = Some text /\ blank ctext = false /\ res = Some e
          /\ st' = {| updated := updated st; skipped := skipped st;
                      printed := printed st; rows := rows st;
                      embed_calls := embed_calls st ++ [text];
                      db_writes := db_writes st |}).
Proof.
  intros w st cid [text|] st' res H; unfold chunk_step in H.
  - destruct (blank (Some text)) eqn:Eb.
    + left. injection H as <- <-. now repeat split.
    + right. destruct (embed_text _ text) as [vec|e] eqn:Ee.
      * destruct (update_error_at w _ cid vec) as [msg|].
        -- right. exists text, (DbUpdateFailed cid msg).
           injection H as <- <-. now repeat split.
        -- left. exists text, vec. injection H as <- <-.
           repeat split. now apply BackfillFacts.embed_text_nonempty in Ee.
      * right. exists text, e. injection H as <- <-. now repeat split.
  - left. injection H as <- <-. now repeat split.
Qed.

(** A property of the state that every round keeps, indexed by the rows
    handled so far and by the outcome of the last round, holds when the
    loop ends; the loop handles all the rows unless a round raises. *)
Lemma chunk_loop_inv :
  forall w (I : list (Z * option str) -> state -> option error -> Prop) rs,
    (forall pre st r st' res,
        In r rs -> I pre st None -> chunk_step w st r = (st', res) ->
        I (pre ++ [r]) st' res) ->
    forall pre st st' res,
      I pre st None -> chunk_loop w st rs = (st', res) ->
      exists handled rest,
        rs = handled ++ rest /\ I (pre ++ handled) st' res
        /\ (res = None -> rest = []).
Proof.
  intros w I. induction rs as [|r rs IH]; intros Hstep pre st st' res HI Hloop;
    cbn [chunk_loop] in Hloop.
  - injection Hloop as <- <-. exists [], []. rewrite (app_nil_r pre).
    now repeat split.
  - destruct (chunk_step w st r) as [st1 [e|]] eqn:E.
    + injection Hloop as <- <-. exists [r], rs. split; [reflexivity|].
      split; [|discriminate].
      eapply Hstep; [now left | exact HI | exact E].
    + assert (H1 : I (pre ++ [r]) st1 None)
        by (eapply Hstep; [now left | exact HI | exact E]).
      destruct (IH (fun pre st r' st' res Hin =>
                      Hstep pre st r' st' res (or_intror Hin))
                  (pre ++ [r]) st1 st' res H1 Hloop)
        as [handled [rest [-> [HI' Hrest]]]].
      exists (r :: handled), rest. split; [reflexivity|].
      split; [|exact Hrest]. now rewrite <- app_assoc in HI'.
Qed.

(** How [main] ends. *)
Lemma main_cases :
  forall w t,
    (key_set w = false
     /\ main w t = {| exit_code := 1; output := [KeyLoaded false; MissingKey];
                      table_after := t; calls := []; writes := [] |})
    \/ (key_set w = true
        /\ exists e,
             fetch_chunks_without_embedding w t 50 = Raise e
             /\ main w t = {| exit_code := 1;
                              output := [KeyLoaded true; Error e];
                              table_after := t; calls := [];
                              writes := [] |})
    \/ (key_set w = true
        /\ fetch_chunks_without_embedding w t 50 = Ok []
        /\ main w t = {| exit_code := 0; output := [KeyLoaded true; Found 0];
                         table_after := t; calls := []; writes := [] |})
    \/ (key_set w = true
        /\ exists rs st' res,
             rs <> []
             /\ fetch_chunks_without_embedding w t 50 = Ok rs
             /\ chunk_loop w (start t (len rs)) rs = (st', res)
             /\ main w t
                = leave (match res with None => 0 | Some _ => 1 end) st'
                    [match res with
                     | None => Done (updated st') (skipped st')
                     | Some e => Error e
                     end]).
Proof.
  intros w t. unfold main. destruct (key_set w); cbn [negb].
  - right. destruct (fetch_chunks_without_embedding w t 50) as [rs|e].
    + right. destruct rs as [|r rs].
      * left. now repeat split.
      * right. split; [reflexivity|]. cbn [truthy negb].
        destruct (chunk_loop w (start t (len (r :: rs))) (r :: rs))
          as [st' res] eqn:El.
        exists (r :: rs), st', res. split; [discriminate|].
        split; [reflexivity|]. split; [exact El|]. now destruct res.
    + left. split; [reflexivity|]. now exists e.
  - left. now split.
Qed.

(** The rows fetched are those of rows of the table that lack an
    embedding, at most [limit] of them. *)
Lemma fetched_rows :
  forall w t limit rs,
    fetch_chunks_without_embedding w t limit = Ok rs ->
    len rs = Z.min limit (len (filter lacks_embedding t))
    /\ forall r, In r rs ->
         exists row, In row t /\ lacks_embedding row = true
                     /\ r = (id row, chunk_text row).
Proof.
  intros w t limit rs H. unfold fetch_chunks_without_embedding in H.
  destruct (fetch_error w); [discriminate|].
  destruct (limit <? 0) eqn:E; [discriminate|]. apply Z.ltb_ge in E.
  injection H as <-. split.
  - unfold len. rewrite length_map, length_firstn. lia.
  - intros r Hr. apply in_map_iff in Hr. destruct Hr as [row [<- Hrow]].
    exists row. assert (Hin : In row (filter lacks_embedding t)).
    { rewrite <- (firstn_skipn (Z.to_nat limit) (filter lacks_embedding t)).
      apply in_or_app. now left. }
    apply filter_In in Hin. now repeat split.
Qed.

End RunFacts.

(** ** The back-fill run: totals, calls, writes and the table *)
Module RunMore.
Import Py PyNum Env Embedder RunFacts.

Lemma count_app :
  forall (f : line -> bool) a b,
    len (filter f (a ++ b)) = len (filter f a) + len (filter f b).
Proof. intros f a b. unfold len. rewrite filter_app, length_app. lia. Qed.

Lemma totals_done :
  forall code st u s,
    forallb (fun x => negb (is_done x)) (printed st) = true ->
    reported_totals (leave code st [Done u s]) = Some (u, s).
Proof.
  intros code st u s H. unfold reported_totals, leave. cbn [output].
  induction (printed st) as [|x xs IH]; [reflexivity|].
  cbn [forallb] in H. apply andb_true_iff in H. destruct H as [Hx Hxs].
  cbn [app flat_map]. destruct x; try discriminate; cbn [app]; now apply IH.
Qed.

Lemma counted_step :
  forall w pre st r st' res,
    counted pre st None -> chunk_step w st r = (st', res) ->
    counted (pre ++ [r]) st' res.
Proof.
  intros w pre st [cid ctext] st' res HI Hstep Hres.
  destruct (HI eq_refl) as [H1 [H2 [H3 [H4 [H5 H6]]]]].
  destruct (chunk_step_cases _ _ _ _ _ _ Hstep)
    as [[_ [_ ->]]|[[text [vec [_ [_ [_ [_ ->]]]]]]|[text [e [_ [_ [-> _]]]]]]];
    [| |discriminate]; cbn [updated skipped printed db_writes embed_calls];
    unfold skips in *; rewrite !count_app, forallb_app, H6;
    unfold len in *; rewrite !length_app; cbn; repeat split; lia.
Qed.

Lemma careful_step :
  forall w pre st r st' res,
    careful pre st None -> chunk_step w st r = (st', res) ->
    careful (pre ++ [r]) st' res.
Proof.
  intros w pre st [cid ctext] st' res [H1 [H2 [H3 H4]]] Hstep.
  assert (Hw : Forall (fun wr => snd wr <> []
                                 /\ In (fst wr) (map fst (pre ++ [(cid, ctext)])))
                 (db_writes st)).
  { eapply Forall_impl; [|exact H2]. intros wr [Hne Hin]. split; [exact Hne|].
    rewrite map_app. apply in_or_app. now left. }
  unfold careful, len in *. rewrite length_app. cbn [length].
  destruct (chunk_step_cases _ _ _ _ _ _ Hstep)
    as [[_ [_ ->]]|[[text [vec [-> [Hb [Hne [_ ->]]]]]]
                   |[text [e [-> [Hb [_ ->]]]]]]];
    cbn [embed_calls db_writes].
  - repeat split; try assumption; lia.
  - rewrite !length_app. cbn [length]. repeat split; try lia.
    + apply Forall_app. split; [exact H1|]. now constructor.
    + apply Forall_app. split; [exact Hw|]. constructor; [|constructor].
      split; [exact Hne|]. rewrite map_app. apply in_or_app. right. now left.
  - rewrite !length_app. cbn [length]. repeat split; try assumption; try lia.
    apply Forall_app. split; [exact H1|]. now constructor.
Qed.

Lemma kept_refl : forall t, Forall2 (kept t []) t t.
Proof.
  intros t.
  assert (H : forall l, (forall r, In r l -> In r t) -> Forall2 (kept t []) l l).
  { induction l as [|r l IH]; intros Hin; constructor.
    - repeat split; [apply Hin; now left | now left].
    - apply IH. intros x Hx. apply Hin. now right. }
  now apply H.
Qed.

Lemma Forall2_map_right :
  forall (A B : Type) (R R' : A -> B -> Prop) (f : B -> B) l l',
    Forall2 R l l' -> (forall a b, R a b -> R' a (f b)) ->
    Forall2 R' l (map f l').
Proof.
  intros A B R R' f l l' H Hf. induction H; cbn [map]; constructor; auto.
Qed.

Lemma kept_step :
  forall w t0 pre st r st' res,
    Forall2 (kept t0 (map fst pre)) t0 (rows st) ->
    chunk_step w st r = (st', res) ->
    Forall2 (kept t0 (map fst (pre ++ [r]))) t0 (rows st').
Proof.
  intros w t0 pre st [cid ctext] st' res HI Hstep.
  assert (Hmono : forall a b, kept t0 (map fst pre) a b ->
                    kept t0 (map fst (pre ++ [(cid, ctext)])) a b).
  { intros a b [H0 [H1 [H2 [H3 [H4 H5]]]]]. repeat split; try assumption.
    destruct H5 as [->|[Hin Hl]]; [now left | right].
    split; [|exact Hl]. rewrite map_app. apply in_or_app. now left. }
  destruct (chunk_step_cases _ _ _ _ _ _ Hstep)
    as [[_ [_ ->]]|[[text [vec [_ [_ [Hne [_ ->]]]]]]|[text [e [_ [_ [_ ->]]]]]]];
    cbn [rows].
  - eapply Forall2_impl; [exact Hmono | exact HI].
  - unfold set_embedding. eapply Forall2_map_right; [exact HI|].
    intros a b Hab. destruct (id b =? cid) eqn:E; [|now apply Hmono].
    apply Z.eqb_eq in E. destruct Hab as [H0 [H1 [H2 [H3 [H4 _]]]]].
    repeat split; try assumption. right. split.
    + rewrite map_app. apply in_or_app. right. cbn. left. congruence.
    + unfold lacks_embedding. cbn. destruct vec; [contradiction | reflexivity].
  - eapply Forall2_impl; [exact Hmono | exact HI].
Qed.

Lemma NoDup_map_eq :
  forall (l : table) x y,
    NoDup (map id l) -> In x l -> In y l -> id x = id y -> x = y.
Proof.
  induction l as [|a l IH]; intros x y Hnd Hx Hy Hid; [contradiction|].
  cbn [map] in Hnd. inversion Hnd as [|? ? Hnot Hnd']; subst.
  destruct Hx as [->|Hx], Hy as [->|Hy]; try reflexivity.
  - elim Hnot. rewrite Hid. now apply in_map.
  - elim Hnot. rewrite <- Hid. now apply in_map.
  - now apply IH.
Qed.

(** A chunk that is trimmed and not empty is not blank for the loop. *)
Lemma chunk_ok_not_blank :
  forall max_chars c,
    IndexDocuments.chunk_ok max_chars c -> blank (Some c) = false.
Proof.
  intros m c [Ht [Hne _]]. unfold blank. rewrite Ht.
  destruct c; [contradiction | reflexivity].
Qed.

(** Whatever the fuel and the overlap, what [chunk_fixed_size] returns
    holds good chunks only. *)
Lemma chunk_fixed_size_loop_chunks :
  forall text chunk_size overlap, 0 < chunk_size ->
    forall fuel start chunks r,
      0 <= start -> Forall (IndexDocuments.chunk_ok chunk_size) chunks ->
      IndexDocuments.chunk_fixed_size_loop fuel text chunk_size overlap
        start chunks = Some r ->
      Forall (IndexDocuments.chunk_ok chunk_size) r.
Proof.
  intros text cs ov Hcs. induction fuel as [|fuel IH];
    intros start chunks r Hs Hck H; [discriminate|].
  cbn [IndexDocuments.chunk_fixed_size_loop] in H.
  destruct (start <? len text); [|now injection H as <-].
  eapply IH; [| |exact H].
  - destruct (start + cs - ov <? 0) eqn:E; [lia | now apply Z.ltb_ge in E].
  - destruct (truthy (strip (slice text start (start + cs)))) eqn:Et;
      [|exact Hck].
    apply Forall_app. split; [exact Hck|].
    constructor; [|constructor]. now apply SentenceFacts.part_ok.
Qed.

End RunMore.

(** X10: a run of [main] that returns 0 has handled every row it
    fetched (the chunks without embedding, at most 50): the "Updated"
    and "Skipped" lines add up to their number, there is one call to the
    embedding service and one write per "Updated" line, and, unless
    nothing was fetched, the "Done." line gives exactly these two
    counts. *)
Theorem main_totals :
  forall w t,
    Embedder.exit_code (Embedder.main w t) = 0 ->
    Embedder.updated_lines (Embedder.main w t)
    + Embedder.skipped_lines (Embedder.main w t)
    = Z.min 50 (len (filter Env.lacks_embedding t))
    /\ len (Embedder.writes (Embedder.main w t))
       = Embedder.updated_lines (Embedder.main w t)
    /\ len (Embedder.calls (Embedder.main w t))
       = Embedder.updated_lines (Embedder.main w t)
    /\ Embedder.reported_totals (Embedder.main w t)
       = if len (filter Env.lacks_embedding t) =? 0 then None
         else Some (Embedder.updated_lines (Embedder.main w t),
                    Embedder.skipped_lines (Embedder.main w t)).
Proof.
  intros w t Hexit.
  destruct (RunFacts.main_cases w t)
    as [[_ Hm]|[[_ [e [_ Hm]]]|[[_ [Hf Hm]]|[_ [rs [st' [res [Hne [Hf [Hl Hm]]]]]]]]]];
    rewrite Hm in *; try discriminate.
  - destruct (RunFacts.fetched_rows _ _ _ _ Hf) as [Hlen _].
    change (len (@nil (Z * option str))) with 0 in Hlen.
    assert (H0 : len (filter Env.lacks_embedding t) = 0) by lia.
    rewrite H0. now repeat split.
  - destruct res as [e|]; [discriminate|].
    destruct (RunFacts.fetched_rows _ _ _ _ Hf) as [Hlen _].
    assert (Hstart : Embedder.counted [] (Embedder.start t (len rs)) None)
      by (intros _; repeat split).
    destruct (RunFacts.chunk_loop_inv w Embedder.counted rs
                (fun pre st r st' res _ => RunMore.counted_step w pre st r st' res)
                [] _ _ _ Hstart Hl)
      as [handled [rest [Hrs [HI Hrest]]]].
    rewrite (Hrest eq_refl), app_nil_r in Hrs. subst handled.
    destruct (HI eq_refl) as [H1 [H2 [H3 [H4 [H5 H6]]]]]. cbn [app] in H1.
    assert (Hpos : len (filter Env.lacks_embedding t) <> 0).
    { destruct rs; [contradiction|]. unfold len in *. cbn [length] in Hlen. lia. }
    apply Z.eqb_neq in Hpos. rewrite Hpos.
    unfold Embedder.updated_lines, Embedder.skipped_lines, Embedder.skips,
      Embedder.leave. cbn [Embedder.output Embedder.writes Embedder.calls].
    rewrite !RunMore.count_app.
    change (len (filter Embedder.is_update [Embedder.Done _ _])) with 0.
    change (len (filter Embedder.is_skip [Embedder.Done _ _])) with 0.
    rewrite !Z.add_0_r. unfold Embedder.skips in H3.
    rewrite <- H2, <- H3.
    split; [lia|]. split; [exact H4|]. split; [exact H5|].
    now apply RunMore.totals_done.
Qed.

Lemma main_totals_witness :
  Embedder.reported_totals
    (Embedder.main
       {| Embedder.api_key := Some (of_string "key");
          Embedder.client_at := fun _ _ =>
            Env.ApiValues (PyNum.PyList [PyNum.PyFloat Examples.one]);
          Embedder.fetch_error := None;
          Embedder.update_error_at := fun _ _ _ => None |}
       Examples.two_pending)
  = Some (2, 0).
Proof.
  destruct (main_totals
              {| Embedder.api_key := Some (of_string "key");
                 Embedder.client_at := fun _ _ =>
                   Env.ApiValues (PyNum.PyList [PyNum.PyFloat Examples.one]);
                 Embedder.fetch_error := None;
                 Embedder.update_error_at := fun _ _ _ => None |}
              Examples.two_pending) as [_ [_ [_ H]]]; [reflexivity|].
  exact H.
Defined.

(** X11: whatever the service and the database do, [main] sends the
    embedding service no blank text, writes no empty vector, writes
    only under the id of a chunk that lacked an embedding, makes at most
    50 calls, and never more writes than calls. *)
Theorem main_calls_and_writes :
  forall w t,
    Forall (fun text => Embedder.blank (Some text) = false)
      (Embedder.calls (Embedder.main w t))
    /\ Forall (fun wr =>
                 snd wr <> []
                 /\ exists row, In row t /\ Env.lacks_embedding row = true
                                /\ Env.id row = fst wr)
         (Embedder.writes (Embedder.main w t))
    /\ len (Embedder.calls (Embedder.main w t)) <= 50
    /\ len (Embedder.writes (Embedder.main w t))
       <= len (Embedder.calls (Embedder.main w t)).
Proof.
  intros w t.
  destruct (RunFacts.main_cases w t)
    as [[_ Hm]|[[_ [e [_ Hm]]]|[[_ [Hf Hm]]|[_ [rs [st' [res [Hne [Hf [Hl Hm]]]]]]]]]];
    rewrite Hm; try (repeat split; (constructor || (cbn; lia))).
  destruct (RunFacts.fetched_rows _ _ _ _ Hf) as [Hlen Hrows].
  assert (Hstart : Embedder.careful [] (Embedder.start t (len rs)) None)
    by (repeat split; (constructor || (cbn; lia))).
  destruct (RunFacts.chunk_loop_inv w Embedder.careful rs
              (fun pre st r st' res _ => RunMore.careful_step w pre st r st' res)
              [] _ _ _ Hstart Hl)
    as [handled [rest [Hrs [[H1 [H2 [H3 H4]]] _]]]].
  cbn [app] in *. unfold Embedder.leave.
  cbn [Embedder.calls Embedder.writes].
  split; [exact H1|]. split; [|split; [|exact H4]].
  - eapply Forall_impl; [|exact H2]. intros wr [Hv Hin]. split; [exact Hv|].
    apply in_map_iff in Hin. destruct Hin as [r [Hfst Hr]].
    destruct (Hrows r) as [row [Hrow [Hlack ->]]].
    { rewrite Hrs. apply in_or_app. now left. }
    exists row. now repeat split.
  - assert (len handled <= len rs).
    { rewrite Hrs. unfold len. rewrite length_app. lia. }
    lia.
Qed.

(** X12: a run of [main] keeps the rows of the table in place, with
    their id, text, file name and strategy; a chunk that had an
    embedding still has one; and when the ids are all different, a chunk
    that had an embedding keeps it unchanged. *)
Theorem main_keeps_table :
  forall w t,
    Forall2
      (fun r0 r1 =>
         Env.id r1 = Env.id r0 /\ Env.chunk_text r1 = Env.chunk_text r0
         /\ Env.filename r1 = Env.filename r0
         /\ Env.split_strategy r1 = Env.split_strategy r0
         /\ (Env.lacks_embedding r0 = false -> Env.lacks_embedding r1 = false)
         /\ (NoDup (map Env.id t) -> Env.lacks_embedding r0 = false ->
             r1 = r0))
      t (Embedder.table_after (Embedder.main w t)).
Proof.
  intros w t.
  assert (Hfinal : exists ids,
             (forall i, In i ids ->
                exists row, In row t /\ Env.lacks_embedding row = true
                            /\ Env.id row = i)
             /\ Forall2 (Embedder.kept t ids) t
                  (Embedder.table_after (Embedder.main w t))).
  { destruct (RunFacts.main_cases w t)
      as [[_ Hm]|[[_ [e [_ Hm]]]|[[_ [Hf Hm]]|[_ [rs [st' [res [Hne [Hf [Hl Hm]]]]]]]]]];
      rewrite Hm; cbn [Embedder.table_after];
      try (exists []; split; [now intros i []| apply RunMore.kept_refl]).
    destruct (RunFacts.fetched_rows _ _ _ _ Hf) as [_ Hrows].
    destruct (RunFacts.chunk_loop_inv w
                (fun pre st _ =>
                   Forall2 (Embedder.kept t (map fst pre)) t (Embedder.rows st))
                rs)
      with (pre := @nil (Z * option str)) (st := Embedder.start t (len rs))
           (st' := st') (res := res)
      as [handled [rest [Hrs [HI _]]]];
      [intros pre st r st1 res1 _ HI Hs;
       exact (RunMore.kept_step w t pre st r st1 res1 HI Hs)
      |apply RunMore.kept_refl | exact Hl |].
    cbn [app] in HI. exists (map fst handled). split; [|exact HI].
    intros i Hi. apply in_map_iff in Hi. destruct Hi as [r [<- Hr]].
    destruct (Hrows r) as [row [Hrow [Hlack ->]]].
    { rewrite Hrs. apply in_or_app. now left. }
    exists row. now repeat split. }
  destruct Hfinal as [ids [Hids H2]].
  eapply Forall2_impl; [|exact H2].
  intros r0 r1 [H0 [Hid [Ht [Hfn [Hs Hk]]]]].
  repeat split; try assumption.
  - intros Hl. destruct Hk as [->|[_ Hl1]]; assumption.
  - intros Hnd Hl. destruct Hk as [->|[Hin _]]; [reflexivity|].
    destruct (Hids _ Hin) as [row [Hrow [Hlack Hrid]]].
    rewrite (RunMore.NoDup_map_eq t row r0 Hnd Hrow H0 Hrid) in Hlack.
    congruence.
Qed.

(** X13: when no chunk without embedding has an absent, empty or blank
    text, [main] skips nothing: it prints no "Skipped" line. *)
Theorem main_skips_blank_only :
  forall w t,
    Forall (fun r => Env.lacks_embedding r = true ->
                     Embedder.blank (Env.chunk_text r) = false) t ->
    Embedder.skipped_lines (Embedder.main w t) = 0.
Proof.
  intros w t Hall.
  destruct (RunFacts.main_cases w t)
    as [[_ Hm]|[[_ [e [_ Hm]]]|[[_ [Hf Hm]]|[_ [rs [st' [res [Hne [Hf [Hl Hm]]]]]]]]]];
    rewrite Hm; try reflexivity.
  destruct (RunFacts.fetched_rows _ _ _ _ Hf) as [_ Hrows].
  destruct (RunFacts.chunk_loop_inv w
              (fun _ st _ => Embedder.skips (Embedder.printed st) = 0) rs)
    with (pre := @nil (Z * option str)) (st := Embedder.start t (len rs))
         (st' := st') (res := res)
    as [handled [rest [_ [HI _]]]]; [|reflexivity|exact Hl|].
  - intros pre st [cid ctext] st1 res1 Hin HI Hstep.
    destruct (Hrows _ Hin) as [row [Hrow [Hlack Heq]]].
    injection Heq as -> ->.
    rewrite Forall_forall in Hall. pose proof (Hall row Hrow Hlack) as Hb.
    destruct (RunFacts.chunk_step_cases _ _ _ _ _ _ Hstep)
      as [[Hb' _]|[[text [vec [_ [_ [_ [_ ->]]]]]]|[text [e [_ [_ [_ ->]]]]]]];
      [congruence| |exact HI].
    cbn [Embedder.printed]. unfold Embedder.skips in *.
    rewrite RunMore.count_app, HI. reflexivity.
  - unfold Embedder.skipped_lines, Embedder.leave. cbn [Embedder.output].
    unfold Embedder.skips in *. rewrite RunMore.count_app, HI.
    now destruct res.
Qed.

Lemma main_skips_blank_only_witness :
  Embedder.skipped_lines
    (Embedder.main Examples.second_call_fails Examples.two_pending) = 0.
Proof.
  apply main_skips_blank_only. repeat constructor.
Defined.

(** X14: the chunks of [chunk_fixed_size] (for [chunk_size > 0]) are
    never skipped by the back-fill: on a table whose chunks without
    embedding all hold such a chunk as text, [main] prints no "Skipped"
    line. *)
Theorem fixed_size_chunks_never_skipped :
  forall text fuel chunk_size overlap chunks w t,
    0 < chunk_size ->
    IndexDocuments.chunk_fixed_size fuel text chunk_size overlap = Some chunks ->
    Forall (fun r => Env.lacks_embedding r = true ->
                     exists c, In c chunks /\ Env.chunk_text r = Some c) t ->
    Forall (fun c => Embedder.blank (Some c) = false) chunks
    /\ Embedder.skipped_lines (Embedder.main w t) = 0.
Proof.
  intros text fuel cs ov chunks w t Hcs Hrun Hrows.
  assert (Hok : Forall (fun c => Embedder.blank (Some c) = false) chunks).
  { eapply Forall_impl; [intros c Hc; exact (RunMore.chunk_ok_not_blank cs c Hc)|].
    eapply RunMore.chunk_fixed_size_loop_chunks;
      [exact Hcs | | | exact Hrun]; [lia | constructor]. }
  split; [exact Hok|].
  destruct (RunFacts.main_cases w t)
    as [[_ Hm]|[[_ [e [_ Hm]]]|[[_ [Hf Hm]]|[_ [rs [st' [res [Hne [Hf [Hl Hm]]]]]]]]]];
    rewrite Hm; try reflexivity.
  destruct (RunFacts.fetched_rows _ _ _ _ Hf) as [_ Hfetched].
  destruct (RunFacts.chunk_loop_inv w
              (fun _ st _ => Embedder.skips (Embedder.printed st) = 0) rs)
    with (pre := @nil (Z * option str)) (st := Embedder.start t (len rs))
         (st' := st') (res := res)
    as [handled [rest [_ [HI _]]]]; [|reflexivity|exact Hl|].
  - intros pre st [cid ctext] st1 res1 Hin HI Hstep.
    destruct (Hfetched _ Hin) as [row [Hrow [Hlack Heq]]].
    injection Heq as -> ->.
    rewrite Forall_forall in Hrows, Hok.
    destruct (Hrows row Hrow Hlack) as [c [Hc Htext]].
    pose proof (Hok c Hc) as Hb. rewrite <- Htext in Hb.
    destruct (RunFacts.chunk_step_cases _ _ _ _ _ _ Hstep)
      as [[Hb' _]|[[text' [vec [_ [_ [_ [_ ->]]]]]]|[text' [e [_ [_ [_ ->]]]]]]];
      [congruence| |exact HI].
    cbn [Embedder.printed]. unfold Embedder.skips in *.
    rewrite RunMore.count_app, HI. reflexivity.
  - unfold Embedder.skipped_lines, Embedder.leave. cbn [Embedder.output].
    unfold Embedder.skips in *. rewrite RunMore.count_app, HI.
    now destruct res.
Qed.

Lemma fixed_size_chunks_never_skipped_witness :
  Forall (fun c => Embedder.blank (Some c) = false) [of_string "alpha"]
  /\ Embedder.skipped_lines
       (Embedder.main Examples.second_call_fails
          [Examples.pending 1 (of_string "alpha")]) = 0.
Proof.
  apply (fixed_size_chunks_never_skipped (of_string "  alpha ") 2 300 50
           [of_string "alpha"]).
  - lia.
  - reflexivity.
  - constructor; [|constructor]. intros _. exists (of_string "alpha").
    split; [now left | reflexivity].
Defined.

(** ** The search run *)
Module SearchMore.
Import Py PyNum Env Search.

(** The ranking raises nothing, whatever [top_k] is. *)
Lemma ranking_total :
  forall q chunks top_k,
    ranking q chunks top_k
    = Some (slice (sort_by_score_reverse (scored_of q chunks)) 0 top_k,
            len chunks - len (filter valid_embedding chunks)).
Proof.
  intros q chunks k. unfold ranking.
  now rewrite RankingFacts.score_loop_spec.
Qed.

Lemma embed_text_not_uncaught :
  forall c text, embed_text c text <> Raise Uncaught.
Proof.
  intros c text. unfold embed_text.
  destruct (c text) as [e|e|vec]; try discriminate.
  destruct vec; try discriminate.
  destruct (len items =? 0); [discriminate|].
  destruct (floats_of items); discriminate.
Qed.

Lemma no_uncaught_hit :
  forall top : list (float * chunk), ~ In (Error Uncaught) (map hit_line top).
Proof.
  intros top H. apply in_map_iff in H. destruct H as [[s x] [H _]].
  discriminate.
Qed.

Lemma hits_count :
  forall top : list (float * chunk),
    len (filter is_hit (map hit_line top)) = len top.
Proof.
  intros top. unfold len. f_equal.
  induction top as [|[s c] top IH]; [reflexivity|].
  cbn [map filter hit_line is_hit length]. now rewrite IH.
Qed.

Lemma count_hits_app :
  forall a b,
    len (filter is_hit (a ++ b)) = len (filter is_hit a) + len (filter is_hit b).
Proof. intros a b. unfold len. rewrite filter_app, length_app. lia. Qed.

Lemma fleb_refl : forall x, is_nan x = false -> fleb x x = true.
Proof.
  intros x H. apply OrderFacts.fltb_false_fleb; try exact H.
  apply (OrderFacts.feqb_not_fltb x x x);
    destruct x as [s|s| |s m e]; try discriminate; try reflexivity;
    unfold feqb, SFeqb, SFcompare; destruct s; try reflexivity;
    rewrite Z.compare_refl; change (Pos.compare_cont Eq m m) with (m ?= m)%positive;
    now rewrite Pos.compare_refl.
Qed.

(** The squares of zeros add up to zero. *)
Lemma sum_squares_zero :
  forall b, Forall (fun y => exists s, y = S754_zero s) b ->
    fold_left (fun acc x => fadd acc (fmul x x)) b zero = zero.
Proof.
  induction b as [|y b IH]; intros H; [reflexivity|].
  inversion H as [|? ? [s ->] Hb]; subst. cbn [fold_left].
  replace (fadd zero (fmul (S754_zero s) (S754_zero s))) with zero
    by now destruct s.
  now apply IH.
Qed.

End SearchMore.

(** X15: [search.main] returns 0 exactly when the key is set, the query
    is embedded and the chunks are fetched; otherwise it returns 1.  The
    ranking itself never makes it fail: no exception of the scoring,
    sorting or slicing reaches the handler, whatever the embeddings
    stored and whatever [top_k]. *)
Theorem search_main_exit :
  forall api_key c fetch_error t query top_k,
    (fst (Search.main api_key c fetch_error t query top_k) = 0
     \/ fst (Search.main api_key c fetch_error t query top_k) = 1)
    /\ (fst (Search.main api_key c fetch_error t query top_k) = 0
        <-> (exists k, api_key = Some k /\ k <> [])
            /\ (exists q, Search.embed_text c query = Env.Ok q)
            /\ fetch_error = None)
    /\ ~ In (Search.Error Env.Uncaught)
           (snd (Search.main api_key c fetch_error t query top_k)).
Proof.
  intros api_key c fetch_error t query top_k. unfold Search.main.
  destruct api_key as [[|ch k]|]; cbn [truthy negb].
  - split; [now right|]. split.
    + split; [discriminate|]. intros [[k [Hk Hne]] _]. injection Hk as <-.
      contradiction.
    + cbn. intros [H|[H|[]]]; discriminate.
  - destruct (Search.embed_text c query) as [q|e] eqn:Ee.
    + destruct fetch_error as [msg|];
        cbn [Search.fetch_chunks_with_embeddings].
      * split; [now right|]. split.
        -- split; [discriminate|]. intros [_ [_ H]]. discriminate.
        -- cbn. intros [H|[H|[H|[]]]]; discriminate.
      * rewrite SearchMore.ranking_total.
        destruct (truthy (map Search.chunk_of_row _)); cbn [negb fst snd].
        -- split; [now left|]. split.
           ++ split; [|reflexivity]. intros _.
              split; [exists (ch :: k); split; [reflexivity | discriminate]|].
              split; [now exists q | reflexivity].
           ++ intros H. rewrite !in_app_iff in H. cbn [In] in H.
              pose proof (SearchMore.no_uncaught_hit
                            (slice (Search.sort_by_score_reverse
                                      (Search.scored_of q
                                         (map Search.chunk_of_row
                                            (filter (fun r => negb (Env.lacks_embedding r)) t))))
                               0 top_k)) as Hhit.
              destruct (_ =? 0); cbn [In] in H;
                intuition (try discriminate).
        -- split; [now left|]. split.
           ++ split; [|reflexivity]. intros _.
              split; [exists (ch :: k); split; [reflexivity | discriminate]|].
              split; [now exists q | reflexivity].
           ++ cbn. intros [H|[H|[H|[]]]]; discriminate.
    + split; [now right|]. split.
      * split; [discriminate|]. intros [_ [[q Hq] _]]. discriminate.
      * cbn. intros [H|[H|[]]]; try discriminate.
        injection H as ->. now apply (SearchMore.embed_text_not_uncaught c query).
  - split; [now right|]. split.
    + split; [discriminate|]. intros [[k [Hk _]] _]. discriminate.
    + cbn. intros [H|[H|[]]]; discriminate.
Qed.

(** X16: when [search.main] gets its query embedding and the chunks,
    with [top_k > 0], it prints one hit per ranked entry:
    [min(top_k, number of chunks with a valid embedding)] hits; and it
    prints the "(Skipped n rows ...)" line exactly when some fetched
    chunk has no valid embedding, [n] being their number. *)
Theorem search_main_hits :
  forall k c t query top_k q,
    k <> [] -> 0 < top_k ->
    Search.embed_text c query = Env.Ok q ->
    let chunks :=
      map Search.chunk_of_row
        (filter (fun r => negb (Env.lacks_embedding r)) t) in
    let out := snd (Search.main (Some k) c None t query top_k) in
    len (filter Search.is_hit out)
    = Z.min top_k (len (filter Search.valid_embedding chunks))
    /\ forall n,
         In (Search.SkippedRows n) out
         <-> n = len chunks - len (filter Search.valid_embedding chunks)
             /\ n <> 0.
Proof.
  intros k c t query top_k q Hk Htop Hq chunks out.
  unfold out, Search.main. destruct k as [|ch k]; [contradiction|].
  cbn [truthy negb]. rewrite Hq.
  cbn [Search.fetch_chunks_with_embeddings]. fold chunks.
  destruct (truthy chunks) eqn:Ec; cbn [negb].
  - rewrite SearchMore.ranking_total. cbn [snd].
    rewrite SortFacts.slice_firstn by lia.
    set (top := firstn (Z.to_nat top_k) _).
    set (n0 := len chunks - len (filter Search.valid_embedding chunks)).
    assert (Hlen : len top = Z.min top_k (len (filter Search.valid_embedding chunks))).
    { unfold top, len. rewrite length_firstn.
      rewrite (Permutation_length (SortFacts.sort_by_score_reverse_perm _)).
      unfold Search.scored_of. rewrite length_map. lia. }
    split.
    + rewrite !SearchMore.count_hits_app, SearchMore.hits_count, Hlen.
      destruct (n0 =? 0); cbn; lia.
    + intros n. rewrite !in_app_iff. cbn [In].
      assert (Hm : ~ In (Search.SkippedRows n) (map Search.hit_line top)).
      { intros H. apply in_map_iff in H. destruct H as [[s x] [H _]].
        discriminate. }
      destruct (n0 =? 0) eqn:E0; cbn [In].
      * apply Z.eqb_eq in E0. split.
        -- intuition discriminate.
        -- intros [-> Hn]. contradiction.
      * apply Z.eqb_neq in E0. split.
        -- intros H.
           assert (Hn : Search.SkippedRows n0 = Search.SkippedRows n)
             by intuition discriminate.
           injection Hn as <-. now split.
        -- intros [-> _]. right. right. right. now left.
  - apply StripFacts.truthy_false in Ec. cbn [snd]. rewrite Ec.
    split; [cbn; lia|].
    intros n. split.
    + cbn. intros [H|[H|[H|[]]]]; discriminate.
    + cbn. intros [-> H]. now elim H.
Qed.

Lemma search_main_hits_witness :
  len (filter Search.is_hit
         (snd (Search.main (Some (of_string "key"))
                 (fun _ => Env.ApiValues
                             (PyNum.PyList [PyNum.PyFloat Examples.one;
                                            PyNum.PyFloat PyNum.zero]))
                 None Examples.all_embedded (of_string "alpha") 1)))
  = 1.
Proof.
  destruct (search_main_hits (of_string "key")
              (fun _ => Env.ApiValues
                          (PyNum.PyList [PyNum.PyFloat Examples.one;
                                         PyNum.PyFloat PyNum.zero]))
              Examples.all_embedded (of_string "alpha") 1
              [Examples.one; PyNum.zero]) as [H _];
    [discriminate | lia | reflexivity |].
  exact H.
Defined.

(** X17: the preview of a hit is one line of at most 223 characters: it
    holds no newline, and a text longer than 220 characters is cut to
    220 and followed by three dots. *)
Theorem preview_one_line :
  forall c : Search.chunk,
    ~ In newline (Search.preview c)
    /\ len (Search.preview c) <= 223
    /\ (forall text, Search.c_chunk_text c = Some text -> len text <= 220 ->
          len (Search.preview c) = len text)
    /\ (forall text, Search.c_chunk_text c = Some text -> 220 < len text ->
          len (Search.preview c) = 223).
Proof.
  intros c. unfold Search.preview.
  set (text := match Search.c_chunk_text c with Some t => t | None => [] end).
  set (flat := map (fun ch => if (ch =? 10)%N then space else ch) text).
  assert (Hflat : ~ In newline flat).
  { unfold flat. intros H. apply in_map_iff in H. destruct H as [ch [H _]].
    destruct (ch =? 10)%N eqn:E; [discriminate|].
    apply N.eqb_neq in E. now subst ch. }
  assert (Hlen : len flat = len text)
    by (unfold flat, len; now rewrite length_map).
  rewrite SortFacts.slice_firstn by lia.
  assert (Hcut : 220 < len flat ->
                 len (firstn (Z.to_nat 220) flat ++ of_string "...") = 223).
  { intros H. unfold len in *. rewrite length_app, length_firstn.
    change (length (of_string "...")) with 3%nat. lia. }
  split; [|split; [|split]].
  - destruct (220 <? len flat); [|exact Hflat].
    intros H. apply in_app_or in H. destruct H as [H|H].
    + apply Hflat. rewrite <- (firstn_skipn (Z.to_nat 220) flat).
      apply in_or_app. now left.
    + cbn in H. destruct H as [H|[H|[H|[]]]]; discriminate.
  - destruct (220 <? len flat) eqn:E.
    + apply Z.ltb_lt in E. rewrite (Hcut E). lia.
    + apply Z.ltb_ge in E. lia.
  - intros t Ht Hle. unfold text in Hlen. rewrite Ht in Hlen.
    destruct (220 <? len flat) eqn:E; [apply Z.ltb_lt in E; lia | exact Hlen].
  - intros t Ht Hgt. unfold text in Hlen. rewrite Ht in Hlen.
    destruct (220 <? len flat) eqn:E; [|apply Z.ltb_ge in E; lia].
    apply Hcut. lia.
Qed.

(** X18: the similarity with a vector of zeros is negative infinity,
    whenever the norm of the other vector is finite (it has neither
    overflowed nor is NaN). *)
Theorem cosine_similarity_zero_vector :
  forall a b : list PyNum.float,
    Forall (fun y => exists s, y = S754_zero s) b ->
    PyNum.is_finite (Search.norm a) = true ->
    Search.cosine_similarity a b = Some PyNum.neg_inf
    /\ Search.cosine_similarity b a = Some PyNum.neg_inf.
Proof.
  intros a b Hb Ha.
  assert (H : Search.cosine_spec a b = PyNum.neg_inf).
  { unfold Search.cosine_spec.
    destruct a as [|x a]; [reflexivity|].
    destruct b as [|y b]; [reflexivity|].
    destruct (negb _); [reflexivity|].
    unfold Search.norm at 2.
    rewrite (SearchMore.sum_squares_zero (y :: b) Hb).
    change (PyNum.fsqrt PyNum.zero) with PyNum.zero.
    destruct (Search.norm (x :: a)) as [s|s| |s m e]; try discriminate;
      reflexivity. }
  rewrite !CosineFacts.cosine_similarity_spec.
  rewrite <- (CosineFacts.cosine_spec_sym a b), H. now split.
Qed.

Lemma cosine_similarity_zero_vector_witness :
  Search.cosine_similarity [Examples.one; PyNum.zero] [PyNum.zero; PyNum.zero]
  = Some PyNum.neg_inf
  /\ Search.cosine_similarity [PyNum.zero; PyNum.zero]
       [Examples.one; PyNum.zero]
     = Some PyNum.neg_inf.
Proof.
  apply cosine_similarity_zero_vector.
  - repeat constructor; now exists false.
  - reflexivity.
Defined.

(** X19: with [top_k] at least the number of chunks with a valid
    embedding, the ranking returns them all: each once, with its
    score. *)
Theorem ranking_returns_all :
  forall query_emb chunks top_k,
    len (filter Search.valid_embedding chunks) <= top_k ->
    exists top skipped,
      Search.ranking query_emb chunks top_k = Some (top, skipped)
      /\ Permutation top (Search.scored_of query_emb chunks)
      /\ skipped = len chunks - len (filter Search.valid_embedding chunks).
Proof.
  intros q chunks k Hk.
  assert (0 <= k) by (unfold len in Hk; lia).
  rewrite RankingFacts.ranking_spec by assumption.
  do 2 eexists. split; [reflexivity|]. split; [|reflexivity].
  rewrite firstn_all2.
  - apply SortFacts.sort_by_score_reverse_perm.
  - rewrite (Permutation_length (SortFacts.sort_by_score_reverse_perm _)).
    unfold Search.scored_of. rewrite length_map. unfold len in Hk. lia.
Qed.

Lemma ranking_returns_all_witness :
  exists top skipped,
    Search.ranking Examples.unit_query Examples.unit_candidates 3
    = Some (top, skipped)
    /\ Permutation top
         (Search.scored_of Examples.unit_query Examples.unit_candidates)
    /\ skipped = len Examples.unit_candidates
                 - len (filter Search.valid_embedding Examples.unit_candidates).
Proof.
  apply (ranking_returns_all Examples.unit_query Examples.unit_candidates 3).
  vm_compute. discriminate.
Defined.

(** X20: when no score is NaN and [top_k > 0], the first entry of the
    ranking has the greatest score: no chunk with a valid embedding
    scores higher. *)
Theorem ranking_first_is_best :
  forall query_emb chunks top_k best rest skipped,
    0 < top_k ->
    Forall (fun c => PyNum.is_nan (Search.score_of query_emb c) = false)
      (filter Search.valid_embedding chunks) ->
    Search.ranking query_emb chunks top_k = Some (best :: rest, skipped) ->
    In (snd best) chunks
    /\ forall c,
         In c chunks -> Search.valid_embedding c = true ->
         PyNum.fleb (Search.score_of query_emb c) (fst best) = true.
Proof.
  intros q chunks k best rest skipped Hk Hnan Hrun.
  rewrite RankingFacts.ranking_spec in Hrun by lia.
  injection Hrun as Htop _.
  set (sorted := Search.sort_by_score_reverse (Search.scored_of q chunks)) in *.
  assert (Hperm : Permutation sorted (Search.scored_of q chunks))
    by apply SortFacts.sort_by_score_reverse_perm.
  assert (Hall : Forall (fun e => PyNum.is_nan (fst e) = false)
                   (Search.scored_of q chunks)).
  { unfold Search.scored_of. apply Forall_forall. intros e He.
    apply in_map_iff in He. destruct He as [c [<- Hc]].
    rewrite Forall_forall in Hnan. now apply Hnan. }
  assert (Hdesc : Search.descending sorted)
    by now apply SortFacts.sort_by_score_reverse_descending.
  destruct sorted as [|b sorted'] eqn:Es.
  { destruct (Z.to_nat k); discriminate. }
  assert (Hb : b = best).
  { destruct (Z.to_nat k) eqn:Ek; [lia|]. now injection Htop as -> _. }
  subst b.
  assert (Hbest : In best (Search.scored_of q chunks))
    by (apply (Permutation_in _ Hperm); now left).
  split.
  - now apply (RankingFacts.scored_of_entry q chunks best).
  - intros c Hc Hv.
    assert (Hin : In (Search.score_of q c, c) (best :: sorted')).
    { apply (Permutation_in _ (Permutation_sym Hperm)).
      unfold Search.scored_of. apply in_map_iff. exists c.
      split; [reflexivity|]. apply filter_In. now split. }
    inversion Hdesc as [|? ? _ Hrest]; subst.
    destruct Hin as [Heq|Hin].
    + rewrite Heq. cbn [fst]. apply SearchMore.fleb_refl.
      rewrite Forall_forall in Hnan. apply Hnan. apply filter_In. now split.
    + rewrite Forall_forall in Hrest. exact (Hrest _ Hin).
Qed.

Lemma ranking_first_is_best_witness :
  PyNum.fleb
    (Search.score_of Examples.unit_query
       (Examples.candidate 3 [Examples.minus_one; PyNum.zero]))
    Examples.one = true.
Proof.
  destruct (ranking_first_is_best Examples.unit_query Examples.unit_candidates 2
              (Examples.one, Examples.candidate 1 [Examples.one; PyNum.zero])
              [(PyNum.zero, Examples.candidate 2 [PyNum.zero; Examples.one])] 0)
    as [_ H].
  - lia.
  - change (filter Search.valid_embedding Examples.unit_candidates)
      with Examples.unit_candidates.
    unfold Examples.unit_candidates.
    repeat (constructor; [vm_compute; reflexivity|]). constructor.
  - vm_compute. reflexivity.
  - apply H; [right; right; now left | reflexivity].
Defined.
